(** * The omega miner pipeline: search, download, clip, embed

    A shallow embedding of [omega/video_utils.py] and [omega/miner_utils.py].
    Python integers are [Z]; strings are [string]; the module-level set
    [existing_ids] is a [gset string]; temporary files are handles in an
    explicit store; exceptions are an [outcome] threaded through a small
    state-and-exception monad.  The external collaborators (yt-dlp, ffmpeg,
    the embedding model, the query rewriter) are fields of a [provider]
    record: functions of exactly the arguments the code hands them. *)

From Stdlib Require Import Ascii QArith.QArith_base.
From stdpp Require Import base numbers list gmap strings pretty.

Local Open Scope Z_scope.

(** ** Python primitives used by the two modules *)

Module Py.

(** [int(x)] on a float: truncation toward zero.  Floats are idealised as
    rationals. *)
Definition int_of_float (q : Q) : Z := Z.quot (Qnum q) (Z.pos (Qden q)).

(** Truthiness of a float. *)
Definition float_truthy (q : Q) : bool := negb (Qnum q =? 0).

(** [min(a, b)] on integers. *)
Definition min (a b : Z) : Z := Z.min a b.

(** [l[:k]]: a negative bound counts from the end. *)
Definition slice_to {A} (l : list A) (k : Z) : list A :=
  if 0 <=? k then take (Z.to_nat k) l
  else take (Z.to_nat (Z.of_nat (length l) + k)) l.

(** [needle in hay] on strings. *)
Fixpoint is_prefix (p s : string) : bool :=
  match p, s with
  | EmptyString, _ => true
  | String a p', String b s' => if decide (a = b) then is_prefix p' s' else false
  | String _ _, EmptyString => false
  end.

Fixpoint contains (needle hay : string) : bool :=
  is_prefix needle hay ||
  match hay with
  | EmptyString => false
  | String _ hay' => contains needle hay'
  end.

(** [any(p(x) for x in l)]. *)
Definition any {A} (p : A → bool) (l : list A) : bool := existsb p l.

(** [f"{z:02}"]: decimal, zero-padded to two characters (the sign counts
    toward the width). *)
Definition fmt02 (z : Z) : string :=
  let s := pretty z in
  if (String.length s <? 2)%nat then "0" +:+ s else s.

(** [int(n * 1.5)] for an integer [n]: the product is exact in binary
    floating point for every |n| < 2^52, and [int] truncates toward zero. *)
Definition int_times_1_5 (n : Z) : Z := Z.quot (3 * n) 2.

End Py.

(** ** omega.constants *)

(** Modelled from the spec: [omega/constants.py] is not among the sources;
    the spec fixes the default duration and the download ceiling at five
    minutes, 300 seconds. *)
Definition FIVE_MINUTES : Z := 300.

(** ** video_utils.seconds_to_str *)

Definition seconds_to_hms (seconds : Z) : Z * Z * Z :=
  let hours := seconds / 3600 in
  let minutes := (seconds mod 3600) / 60 in
  let seconds := seconds mod 60 in
  (hours, minutes, seconds).

Definition seconds_to_str (seconds : Z) : string :=
  let '(hours, minutes, seconds) := seconds_to_hms seconds in
  Py.fmt02 hours +:+ ":" +:+ Py.fmt02 minutes +:+ ":" +:+ Py.fmt02 seconds.

(** Reading a timestamp back: the digits up to the first character that is
    not one, and the three fields separated by colons.  Not part of the
    source; it states what the formatted string determines. *)
Fixpoint read_digits (acc : Z) (s : string) : Z * string :=
  match s with
  | String c s' =>
      match Ascii.is_nat c with
      | Some d => read_digits (10 * acc + Z.of_nat d) s'
      | None => (acc, s)
      end
  | EmptyString => (acc, s)
  end.

Definition str_to_seconds (s : string) : option Z :=
  let '(hours, s) := read_digits 0 s in
  match s with
  | String ":"%char s =>
      let '(minutes, s) := read_digits 0 s in
      match s with
      | String ":"%char s =>
          let '(seconds, s) := read_digits 0 s in
          match s with
          | EmptyString => Some (hours * 3600 + minutes * 60 + seconds)
          | _ => None
          end
      | _ => None
      end
  | _ => None
  end.


(** ** Exceptions *)

Inductive exn_class : Type :=
  | IPBlockedException
  | FakeVideoException
  | TypeError
  | KeyError
  | IndexError
  | OtherException.   (* any other subclass of Exception, raised by a library *)

Global Instance exn_class_eq_dec : EqDecision exn_class.
Proof. solve_decision. Defined.

(** An exception object: its class and [str(e)]. *)
Record exn : Type := mk_exn { exn_cls : exn_class; exn_str : string }.

Inductive outcome (A : Type) : Type :=
  | Ok (a : A)
  | Raise (e : exn).
Arguments Ok {A} a.
Arguments Raise {A} e.

Global Instance outcome_ret : MRet outcome := λ A a, Ok a.
Global Instance outcome_bind : MBind outcome := λ A B f m,
  match m with
  | Ok a => f a
  | Raise e => Raise e
  end.

Definition is_ok {A} (r : outcome A) : bool :=
  match r with Ok _ => true | Raise _ => false end.

(** ** State and exceptions *)

(** A computation over a mutable state [S] that returns or raises. *)
Definition M (S A : Type) : Type := S → outcome A * S.

Global Instance M_ret {S} : MRet (M S) := λ A a s, (Ok a, s).
Global Instance M_bind {S} : MBind (M S) := λ A B f m s,
  match m s with
  | (Ok a, s') => f a s'
  | (Raise e, s') => (Raise e, s')
  end.

Definition raise {S A} (e : exn) : M S A := λ s, (Raise e, s).

(** A call that may raise but touches no state of ours. *)
Definition call {S A} (r : outcome A) : M S A := λ s, (r, s).

(** [try: body / except Exception as e: handler(e)]. *)
Definition try_except {S A} (body : M S A) (handler : exn → M S A) : M S A := λ s,
  match body s with
  | (Ok a, s') => (Ok a, s')
  | (Raise e, s') => handler e s'
  end.

Definition get {S} : M S S := λ s, (Ok s, s).
Definition modify {S} (f : S → S) : M S unit := λ s, (Ok tt, f s).

(** Run a computation on the second component of the state. *)
Definition on_snd {L S A} (m : M S A) : M (L * S) A := λ '(l, s),
  match m s with (r, s') => (r, (l, s')) end.

(** Run a computation on the first component of the state. *)
Definition on_fst {L S A} (m : M L A) : M (L * S) A := λ '(l, s),
  match m l with (r, l') => (r, (l', s)) end.

(** A block with a local variable initialised to [init]. *)
Definition with_local {L S A} (init : L) (m : M (L * S) A) : M S A := λ s,
  match m (init, s) with (r, (_, s')) => (r, s') end.

(** [try: body / finally: final]. *)
Definition try_finally {S A} (body : M S A) (final : M S unit) : M S A := λ s,
  match body s with
  | (r, s') =>
      match final s' with
      | (Ok _, s'') => (r, s'')
      | (Raise e, s'') => (Raise e, s'')
      end
  end.

(** The list a call returned (nothing, had it raised). *)
Definition returned {S A} (r : outcome (list A) * S) : list A :=
  match r.1 with
  | Ok l => l
  | Raise _ => []
  end.

(** [l[0]]. *)
Definition item0 {A} (l : list A) : outcome A :=
  match l with
  | x :: _ => Ok x
  | [] => Raise (mk_exn IndexError "index out of range")
  end.

(** ** Temporary files *)

Definition handle : Type := nat.

(** The store of [tempfile.NamedTemporaryFile] objects: the handles created
    so far and the log of [close()] calls. *)
Record world : Type := mk_world {
  next_handle : nat;
  opened : list handle;
  closed : list handle
}.

Definition empty_world : world := mk_world 0 [] [].

Definition NamedTemporaryFile : M world handle := λ w,
  (Ok (next_handle w),
   mk_world (S (next_handle w)) (opened w ++ [next_handle w]) (closed w)).

Definition close (h : handle) : M world unit := λ w,
  (Ok tt, mk_world (next_handle w) (opened w) (closed w ++ [h])).

(** How many times [h] was closed. *)
Definition close_count (w : world) (h : handle) : nat :=
  length (filter (λ x, x = h) (closed w)).

(** Handles created and never closed. *)
Definition open_handles (w : world) : list handle :=
  filter (λ h, h ∉ closed w) (opened w).

(** The store after a handle was created, and after it was also closed. *)
Definition created (w : world) : world :=
  mk_world (S (next_handle w)) (opened w ++ [next_handle w]) (closed w).

Definition created_and_closed (w : world) : world :=
  mk_world (S (next_handle w)) (opened w ++ [next_handle w])
    (closed w ++ [next_handle w]).


(** Unfolding the monad. *)
Ltac unfold_M :=
  unfold mbind, M_bind, mret, M_ret, raise, call, try_except, try_finally,
    with_local, on_fst, on_snd, get, modify, NamedTemporaryFile, close in *.

(** ** Data *)

(** A raw entry of the search provider's result. *)
Record entry : Type := mk_entry {
  e_id : option string;
  e_title : option string;
  e_description : option string;
  e_duration : option Q;
  e_view_count : option Z
}.

Record YoutubeResult : Type := mk_YoutubeResult {
  video_id : string;
  title : string;
  description : option string;
  yt_length : Z;   (* the field [length] *)
  views : Z
}.

(** A stream of [ffmpeg.probe(filename)['streams']]. *)
Record stream : Type := mk_stream {
  codec_type : string;
  duration : option Q
}.

(** What [imagebind.embed] returns: one vector per input and modality. *)
Record Embeddings (vec : Type) : Type := mk_Embeddings {
  emb_video : list vec;
  emb_audio : list vec;
  emb_description : list vec
}.
Arguments mk_Embeddings {vec}.
Arguments emb_video {vec}.
Arguments emb_audio {vec}.
Arguments emb_description {vec}.

Record ImageBind (vec : Type) : Type := mk_ImageBind {
  embed : list string → list handle → outcome (Embeddings vec)
}.
Arguments mk_ImageBind {vec}.
Arguments embed {vec}.

(** [omega.protocol.VideoMetadata], with the fields that [process_video]
    populates. *)
Record VideoMetadata (vec : Type) : Type := mk_VideoMetadata {
  vm_video_id : string;
  vm_description : string;
  vm_views : Z;
  start_time : Z;
  end_time : Z;
  video_emb : vec;
  audio_emb : vec;
  description_emb : vec
}.
Arguments mk_VideoMetadata {vec}.
Arguments vm_video_id {vec}.
Arguments vm_description {vec}.
Arguments vm_views {vec}.
Arguments start_time {vec}.
Arguments end_time {vec}.
Arguments video_emb {vec}.
Arguments audio_emb {vec}.
Arguments description_emb {vec}.

(** The external services.  Each field is a function of the arguments the
    code passes; the search calls are also told which of the three attempts
    (by completion rank) is asking. *)
Record provider : Type := mk_provider {
  augment : nat → string → outcome string;
  extract_info : nat → string → outcome (option (list entry));
  (* url, outtmpl, download_ranges, proxy: raises, or leaves a file of the
     returned size *)
  ydl_download : string → handle → option (Z * Z) → string → outcome Z;
  ffmpeg_probe : handle → outcome (list stream);
  (* input, ss, to, output *)
  ffmpeg_run : handle → string → string → handle → outcome unit
}.

(** ** omega/video_utils.py *)

Module video_utils.
Section video_utils.

(** The module-level set loaded from the dataset, and the services. *)
Variable existing_ids : gset string.
Variable P : provider.

(** One element of the list comprehension that builds [videos]. *)
Definition make_result (e : entry) : outcome YoutubeResult :=
  match e_id e, e_title e with
  | Some id, Some t =>
      Ok {| video_id := id;
            title := t;
            description := e_description e;
            yt_length :=
              match e_duration e with
              | Some d => if Py.float_truthy d then Py.int_of_float d else FIVE_MINUTES
              | None => FIVE_MINUTES
              end;
            views :=
              match e_view_count e with
              | Some v => if v =? 0 then 0 else v
              | None => 0
              end |}
  | None, _ => Raise (mk_exn KeyError "'id'")
  | Some _, None => Raise (mk_exn KeyError "'title'")
  end.

(** The body of the [try] in the nested function [search]; [None] is the
    implicit return when [entries] is empty. *)
Definition search_body (attempt : nat) (query : string)
  : outcome (option (list YoutubeResult)) :=
  augment_query ← augment P attempt query;
  let search_query := "ytsearch99:" +:+ augment_query in
  result ← extract_info P attempt search_query;
  let entries := default [] result in
  match entries with
  | [] => Ok None
  | _ :: _ =>
      videos ← mapM make_result entries;
      let new_videos := filter (λ video, video_id video ∉ existing_ids) videos in
      Ok (Some new_videos)
  end.

Definition search (attempt : nat) (query : string) : option (list YoutubeResult) :=
  match search_body attempt query with
  | Ok r => r
  | Raise _ => Some []
  end.

(** The loop over [as_completed(futures)]. *)
Fixpoint merge_completed (num_videos : Z) (futures : list (option (list YoutubeResult)))
    (filtered_videos : list YoutubeResult) : list YoutubeResult :=
  match futures with
  | [] => filtered_videos
  | new_videos :: futures' =>
      match new_videos with
      | Some (v :: vs) =>
          let filtered_videos := filtered_videos ++ v :: vs in
          if Z.of_nat (length filtered_videos) >=? num_videos then filtered_videos
          else merge_completed num_videos futures' filtered_videos
      | _ => merge_completed num_videos futures' filtered_videos
      end
  end.

(** The three attempts are the same call, so the order in which they
    complete is the order [0, 1, 2] of their ranks. *)
Definition search_videos (query : string) (max_results num_videos : Z)
    (filtered_videos : option (list YoutubeResult)) : list YoutubeResult :=
  let filtered_videos := default [] filtered_videos in
  if Z.of_nat (length filtered_videos) >=? max_results
  then Py.slice_to filtered_videos max_results
  else
    let futures := (λ attempt, search attempt query) <$> seq 0 3 in
    Py.slice_to (merge_completed num_videos futures filtered_videos) max_results.

(** The batches of the three attempts, an attempt without a batch counting
    as an empty one. *)
Definition batches (query : string) : list (list YoutubeResult) :=
  (λ attempt, default [] (search attempt query)) <$> seq 0 3.

(** The merge in the spec's words: no identifier occurs twice among the
    candidates returned. *)
Definition merged_without_duplicates (query : string) (max_results num_videos : Z) : Prop :=
  NoDup (video_id <$> search_videos query max_results num_videos None).

Definition get_video_duration (filename : handle) : outcome Z :=
  metadata ← ffmpeg_probe P filename;
  match list_find (λ s, codec_type s = "video") metadata with
  | None => Raise (mk_exn TypeError "'NoneType' object is not subscriptable")
  | Some (_, video_stream) =>
      match duration video_stream with
      | None => Raise (mk_exn KeyError "'duration'")
      | Some d => Ok (Py.int_of_float d)
      end
  end.

Definition is_valid_id (youtube_id : string) : bool :=
  (String.length youtube_id =? 11)%nat.

Definition fake_vid_messages : list string :=
  ["Video unavailable"; "is not a valid URL"; "Incomplete YouTube ID"].

Definition default_proxy : string := "163.172.218.19:17038".

(** The two tests of the [except] clause, as predicates on [str(e)]. *)
Definition says_blocked (msg : string) : bool :=
  Py.contains "Your IP is likely being blocked by Youtube" msg
  || Py.contains "Requested format is not available" msg.

Definition says_unavailable (msg : string) : bool :=
  Py.any (λ m, Py.contains m msg) fake_vid_messages.

Definition download_ranges (start end_ : option Z) : option (Z * Z) :=
  match start, end_ with
  | Some s, Some e => Some (s, e)
  | _, _ => None
  end.

Definition video_url (video_id : string) : string :=
  "https://www.youtube.com/watch?v=" +:+ video_id.

Definition download_video (video_id : string) (start end_ : option Z)
    (proxy : option string) : M world (option handle) :=
  if negb (is_valid_id video_id)
  then raise (mk_exn FakeVideoException ("Invalid video ID: " +:+ video_id))
  else
    let video_url := video_url video_id in
    temp_fileobj ← NamedTemporaryFile;
    let download_ranges := download_ranges start end_ in
    let proxy := default default_proxy proxy in
    try_except
      (st_size ← call (ydl_download P video_url temp_fileobj download_ranges proxy);
       if st_size =? 0
       then close temp_fileobj ;; mret None
       else mret (Some temp_fileobj))
      (λ e,
         close temp_fileobj ;;
         if says_blocked (exn_str e)
         then raise (mk_exn IPBlockedException (exn_str e))
         else if says_unavailable (exn_str e)
         then raise (mk_exn FakeVideoException (exn_str e))
         else mret None).

Definition clip_video (video_path : handle) (start end_ : Z) : M world handle :=
  temp_fileobj ← NamedTemporaryFile;
  call (S := world)
    (ffmpeg_run P video_path (seconds_to_str start) (seconds_to_str end_) temp_fileobj) ;;
  mret temp_fileobj.

End video_utils.
End video_utils.

(** ** The thread pool *)

(** [concurrent.futures.as_completed]: the futures in the order in which
    they finish.  The order is chosen by the scheduler, given here as the
    list of its choices: each choice picks one of the futures still pending
    (modulo their number; a scheduler that runs out of choices picks the
    first). *)
Fixpoint complete_in_order {A} (sched : list nat) (pending : list A) (n : nat) : list A :=
  match n with
  | O => []
  | S n' =>
      let k := (hd 0%nat sched `mod` length pending)%nat in
      match pending !! k with
      | Some x => x :: complete_in_order (tl sched) (delete k pending) n'
      | None => []
      end
  end.

Definition as_completed {A} (sched : list nat) (futures : list A) : list A :=
  complete_in_order sched futures (length futures).

(** ** omega/miner_utils.py *)

Module miner_utils.
Section miner_utils.

Variable MAX_VIDEO_LENGTH : Z.
Variable existing_ids : gset string.
Variable P : provider.
Variable vec : Type.

Definition newline : string := String (Ascii.ascii_of_nat 10) EmptyString.

Definition get_description (yt : YoutubeResult) (video_path : handle) : string :=
  match description yt with
  | Some d =>
      if String.eqb d EmptyString then title yt
      else title yt +:+ newline +:+ newline +:+ d
  | None => title yt
  end.

Definition get_relevant_timestamps (query : string) (yt : YoutubeResult)
    (video_path : handle) : Z * Z :=
  let start_time := 0 in
  let end_time := Py.min (yt_length yt) MAX_VIDEO_LENGTH in
  (start_time, end_time).

(** [result.length = ...]. *)
Definition set_length (result : YoutubeResult) (len : Z) : YoutubeResult :=
  {| video_id := video_id result;
     title := title result;
     description := description result;
     yt_length := len;
     views := views result |}.

Definition download_video (result : YoutubeResult)
  : M world (option (YoutubeResult * handle)) :=
  download_path ← video_utils.download_video P (video_id result)
                    (Some 0) (Some (Py.min (yt_length result) FIVE_MINUTES)) None;
  match download_path with
  | Some download_path =>
      len ← call (video_utils.get_video_duration P download_path);
      mret (Some (set_length result len, download_path))
  | None => mret None
  end.

(** The store once [process_video] is over: the clip's handle was created,
    the download was closed, and so was the clip if there is one. *)
Definition processed (download_path : handle) (clip_made : bool) (w : world) : world :=
  mk_world (S (next_handle w)) (opened w ++ [next_handle w])
    (closed w ++ download_path :: (if clip_made then [next_handle w] else [])).

(** The local variable of [process_video] is [clip_path]. *)
Definition process_video (result : YoutubeResult) (download_path : handle)
    (imagebind : ImageBind vec) (query : string) : M world (VideoMetadata vec) :=
  with_local (None : option handle)
    (try_finally
       (let '(start, end_) := get_relevant_timestamps query result download_path in
        let description := get_description result download_path in
        clip_path ← on_snd (video_utils.clip_video P download_path start end_);
        on_fst (modify (λ _, Some clip_path)) ;;
        embeddings ← call (embed imagebind [description] [clip_path]);
        v ← call (item0 (emb_video embeddings));
        a ← call (item0 (emb_audio embeddings));
        d ← call (item0 (emb_description embeddings));
        mret {| vm_video_id := video_id result;
                vm_description := description;
                vm_views := views result;
                start_time := start;
                end_time := end_;
                video_emb := v;
                audio_emb := a;
                description_emb := d |})
       (on_snd (close download_path) ;;
        clip_path ← on_fst get;
        match clip_path with
        | Some clip_path => on_snd (close clip_path)
        | None => mret tt
        end)).

(** What a future holds once its task is done. *)
Definition future : Type := outcome (option (YoutubeResult * handle)).

(** The tasks submitted to the executor.  Leaving the [with] block waits
    for every one of them, so each runs to completion whether or not its
    future is consumed; they share nothing but the temp-file store. *)
Fixpoint run_tasks (results : list YoutubeResult) : M world (list future) :=
  match results with
  | [] => mret []
  | result :: results' => λ w,
      match download_video result w with
      | (r, w') => (download_tasks ← run_tasks results'; mret (r :: download_tasks)) w'
      end
  end.

(** [result, download_path = task.result()]. *)
Definition unpack (r : option (YoutubeResult * handle)) : outcome (YoutubeResult * handle) :=
  match r with
  | Some p => Ok p
  | None => Raise (mk_exn TypeError "cannot unpack non-iterable NoneType object")
  end.

(** The loop over the completed tasks; its local variable is [video_metas]. *)
Fixpoint process_completed (num_videos : Z) (imagebind : ImageBind vec) (query : string)
    (download_tasks : list future) : M (list (VideoMetadata vec) * world) unit :=
  match download_tasks with
  | [] => mret tt
  | task :: download_tasks' =>
      r ← call task;
      '(result, download_path) ← call (unpack r);
      video_meta ← on_snd (process_video result download_path imagebind query);
      on_fst (modify (λ video_metas, video_metas ++ [video_meta])) ;;
      video_metas ← on_fst get;
      if Z.of_nat (length video_metas) =? num_videos
      then mret tt
      else process_completed num_videos imagebind query download_tasks'
  end.

(** The finished task [task], once consumed by the loop, gives the record
    [m]: its download returned a file, and clip and embed went through. *)
Definition yields (imagebind : ImageBind vec) (query : string) (task : future)
    (m : VideoMetadata vec) : Prop :=
  ∃ result download_path w w',
    task = Ok (Some (result, download_path)) ∧
    process_video result download_path imagebind query w = (Ok m, w').

(** The finished task [task], once consumed by the loop, raises [e]: its
    download raised, or returned nothing to unpack, or clip or embed
    raised. *)
Definition fails (imagebind : ImageBind vec) (query : string) (task : future)
    (e : exn) : Prop :=
  task = Raise e ∨
  (task = Ok None ∧ unpack None = Raise e) ∨
  ∃ result download_path w w',
    task = Ok (Some (result, download_path)) ∧
    process_video result download_path imagebind query w = (Raise e, w').

(** Whether the finished task [task] gets through clip and embed when the
    loop consumes it in the store [w]. *)
Definition completes (imagebind : ImageBind vec) (query : string) (w : world)
    (task : future) : bool :=
  match task with
  | Ok (Some (result, download_path)) =>
      is_ok (process_video result download_path imagebind query w).1
  | _ => false
  end.

(** The number of finished tasks that get through clip and embed. *)
Definition completing (imagebind : ImageBind vec) (query : string) (w : world)
    (download_tasks : list future) : nat :=
  length (List.filter (completes imagebind query w) download_tasks).

(** The body of the [try] of [search_and_embed_videos]: the tasks are run
    and consumed in the order [sched] completes them. *)
Definition download_and_process (sched : list nat) (results : list YoutubeResult)
    (query : string) (num_videos : Z) (imagebind : ImageBind vec)
  : M (list (VideoMetadata vec) * world) unit :=
  download_tasks ← on_snd (run_tasks (as_completed sched results));
  process_completed num_videos imagebind query download_tasks.

Definition search_and_embed_videos (sched : list nat) (query : string) (num_videos : Z)
    (imagebind : ImageBind vec) : M world (list (VideoMetadata vec)) :=
  let results :=
    video_utils.search_videos existing_ids P query
      (Py.int_times_1_5 num_videos) num_videos None in
  with_local ([] : list (VideoMetadata vec))
    (try_except
       (download_and_process sched results query num_videos imagebind)
       (λ e, mret tt) ;;
     on_fst get).

(** A record with every field set from the candidate [result], its
    downloaded file and the vectors the model returned for its clip. *)
Definition populated_from (imagebind : ImageBind vec) (result : YoutubeResult)
    (download_path : handle) (m : VideoMetadata vec) : Prop :=
  ∃ clip_path embeddings,
    embed imagebind [get_description result download_path] [clip_path] = Ok embeddings ∧
    item0 (emb_video embeddings) = Ok (video_emb m) ∧
    item0 (emb_audio embeddings) = Ok (audio_emb m) ∧
    item0 (emb_description embeddings) = Ok (description_emb m) ∧
    vm_video_id m = video_id result ∧
    vm_description m = get_description result download_path ∧
    vm_views m = views result ∧
    start_time m = 0 ∧
    end_time m = Py.min (yt_length result) MAX_VIDEO_LENGTH.


(** The quota in the spec's words: when at least [num_videos] candidates
    get through every stage, exactly [num_videos] records are returned. *)
Definition quota_is_met (sched : list nat) (query : string) (num_videos : Z)
    (imagebind : ImageBind vec) (w : world) : Prop :=
  ∀ download_tasks w1,
    run_tasks
      (as_completed sched
         (video_utils.search_videos existing_ids P query
            (Py.int_times_1_5 num_videos) num_videos None)) w
    = (Ok download_tasks, w1) →
    num_videos ≤ Z.of_nat (completing imagebind query w1 download_tasks) →
    Z.of_nat (length (returned (search_and_embed_videos sched query num_videos imagebind w)))
    = num_videos.


End miner_utils.
End miner_utils.

(** ** Concrete services, for running the model *)

Module Demo.

Definition vec : Type := list Z.

Definition id_a : string := "aaaaaaaaaaa".
Definition id_b : string := "bbbbbbbbbbb".
Definition id_c : string := "ccccccccccc".

Definition entry_of (id : string) : entry :=
  {| e_id := Some id;
     e_title := Some ("title " +:+ id);
     e_description := None;
     e_duration := Some (Qmake 90 1);
     e_view_count := Some 7 |}.

Definition one_video_stream (d : Q) : list stream :=
  [ {| codec_type := "audio"; duration := Some d |};
    {| codec_type := "video"; duration := Some d |} ].

(** Every service succeeds; each search attempt returns [entries]; every
    downloaded file measures [d] seconds. *)
Definition ok_provider (entries : list entry) (d : Q) : provider :=
  {| augment := λ _ q, Ok q;
     extract_info := λ _ _, Ok (Some entries);
     ydl_download := λ _ _ _ _, Ok 1000;
     ffmpeg_probe := λ _, Ok (one_video_stream d);
     ffmpeg_run := λ _ _ _ _, Ok tt |}.

(** As [ok_provider], but the download of the video [bad] raises [e]. *)
Definition download_fails (bad : string) (e : exn) (entries : list entry) (d : Q)
  : provider :=
  {| augment := λ _ q, Ok q;
     extract_info := λ _ _, Ok (Some entries);
     ydl_download := λ url _ _ _,
       if Py.contains bad url then Raise e else Ok 1000;
     ffmpeg_probe := λ _, Ok (one_video_stream d);
     ffmpeg_run := λ _ _ _ _, Ok tt |}.


(** As [ok_provider], but ffmpeg fails to trim the file [bad]. *)
Definition clip_fails (bad : handle) (entries : list entry) (d : Q) : provider :=
  {| augment := λ _ q, Ok q;
     extract_info := λ _ _, Ok (Some entries);
     ydl_download := λ _ _ _ _, Ok 1000;
     ffmpeg_probe := λ _, Ok (one_video_stream d);
     ffmpeg_run := λ input _ _ _,
       if decide (input = bad) then Raise (mk_exn OtherException "ffmpeg error")
       else Ok tt |}.

Definition imagebind : ImageBind vec :=
  {| embed := λ _ _, Ok {| emb_video := [[1]]; emb_audio := [[2]]; emb_description := [[3]] |} |}.

(** The embedding model rejects every description that mentions [bad]. *)
Definition imagebind_rejects (bad : string) : ImageBind vec :=
  {| embed := λ descriptions _,
       if Py.any (Py.contains bad) descriptions
       then Raise (mk_exn OtherException "embedding failed")
       else Ok {| emb_video := [[1]]; emb_audio := [[2]]; emb_description := [[3]] |} |}.

(** Each search attempt returns its own entries. *)
Definition per_attempt (entries : nat → list entry) (d : Q) : provider :=
  {| augment := λ _ q, Ok q;
     extract_info := λ attempt _, Ok (Some (entries attempt));
     ydl_download := λ _ _ _ _, Ok 1000;
     ffmpeg_probe := λ _, Ok (one_video_stream d);
     ffmpeg_run := λ _ _ _ _, Ok tt |}.

Definition blocked : exn :=
  mk_exn OtherException
    "ERROR: Sign in to confirm. Your IP is likely being blocked by Youtube".


Definition MAX_VIDEO_LENGTH : Z := 120.

(** Twenty well-formed identifiers. *)
Definition numbered_id (n : nat) : string := "video0000" +:+ Py.fmt02 (Z.of_nat n).

Definition twenty : list entry := (λ n, entry_of (numbered_id n)) <$> seq 0 20.

Definition three : list entry := entry_of <$> [id_a; id_b; id_c].

Definition ninety : Q := Qmake 90 1.

End Demo.

(** ** Further definitions *)

(** What the provider answered to a search attempt: the rewritten query
    went through and [extract_info] returned these entries. *)
Definition answered (P : provider) (attempt : nat) (query : string)
    (entries : list entry) : Prop :=
  ∃ augment_query result,
    augment P attempt query = Ok augment_query ∧
    extract_info P attempt ("ytsearch99:" +:+ augment_query) = Ok result ∧
    default [] result = entries.

(** A store whose handles were all handed out by [NamedTemporaryFile]: the
    next one is fresh. *)
Definition wf_world (w : world) : Prop :=
  Forall (λ h, h < next_handle w)%nat (opened w) ∧
  Forall (λ h, h < next_handle w)%nat (closed w).


(** Whether the trim that [process_video] asks for goes through, in the
    store [w]. *)
Definition trim_succeeds (MAX_VIDEO_LENGTH : Z) (P : provider) (result : YoutubeResult)
    (download_path : handle) (w : world) : bool :=
  is_ok (ffmpeg_run P download_path (seconds_to_str 0)
           (seconds_to_str (Py.min (yt_length result) MAX_VIDEO_LENGTH))
           (next_handle w)).


(** ** omega/video_utils.py, the rest *)

Module video_utils_rest.
Section video_utils_rest.

(** [ffmpeg.input(video_path).output(name, vn=None, acodec='copy')
    .overwrite_output().run(quiet=True)]: input, output. *)
Variable ffmpeg_copy_audio : handle → handle → outcome unit.

(** [info_dict.get("is_live")], given as the value under the key. *)
Definition skip_live (is_live : option bool) : option string :=
  match is_live with
  | Some true => Some "Skipping live video"
  | _ => None
  end.

Definition copy_audio (video_path : handle) : M world handle :=
  temp_audiofile ← NamedTemporaryFile;
  call (S := world) (ffmpeg_copy_audio video_path temp_audiofile) ;;
  mret temp_audiofile.

End video_utils_rest.
End video_utils_rest.

(** ** neurons/simulate_miner.py *)

Module simulate_miner.

(** The [threading.Thread] objects: the ones created, started and joined. *)
Record threads : Type := mk_threads {
  next_thread : nat;
  started : list nat;
  joined : list nat
}.

Definition no_threads : threads := mk_threads 0 [] [].

(** The attributes of a [BaseMinerNeuron] (the [asyncio.Lock] is never
    used). *)
Record BaseMinerNeuron : Type := mk_BaseMinerNeuron {
  should_exit : bool;
  is_running : bool;
  thread : option nat;
  step : Z
}.

(** [__init__]. *)
Definition init : BaseMinerNeuron :=
  {| should_exit := false; is_running := false; thread := None; step := 0 |}.

Definition state : Type := BaseMinerNeuron * threads.

Definition run_in_background_thread : M state unit := λ '(self, ts),
  if negb (is_running self)
  then
    let t := next_thread ts in
    (Ok tt,
     ({| should_exit := false; is_running := true; thread := Some t; step := step self |},
      mk_threads (S t) (started ts ++ [t]) (joined ts)))
  else (Ok tt, (self, ts)).

Definition stop_run_thread : M state unit := λ '(self, ts),
  if is_running self
  then
    match thread self with
    | Some t =>
        (Ok tt,
         ({| should_exit := true; is_running := false; thread := Some t; step := step self |},
          mk_threads (next_thread ts) (started ts) (joined ts ++ [t])))
    | None =>
        (Raise (mk_exn OtherException "'NoneType' object has no attribute 'join'"),
         ({| should_exit := true; is_running := true; thread := None; step := step self |},
          ts))
    end
  else (Ok tt, (self, ts)).

(** [__enter__] and [__exit__]. *)
Definition enter : M state unit := run_in_background_thread.
Definition exit : M state unit := stop_run_thread.

(** The calls a user of the object can make, and a sequence of them. *)
Inductive method : Type :=
  | RunInBackgroundThread
  | StopRunThread
  | Enter
  | Exit.

Definition call_method (m : method) : M state unit :=
  match m with
  | RunInBackgroundThread => run_in_background_thread
  | StopRunThread => stop_run_thread
  | Enter => enter
  | Exit => exit
  end.

Fixpoint call_methods (ms : list method) : M state unit :=
  match ms with
  | [] => mret tt
  | m :: ms' => call_method m ;; call_methods ms'
  end.

(** The loop of [run], seen from its thread: [flags] are the values of
    [self.should_exit] at its successive reads (another thread writes the
    flag), the first in the [while] test, the next after the sleep, and so
    on.  The result is [self.step] when the loop is left, or [None] while
    [flags] has not yet shown the way out. *)
Fixpoint run (flags : list bool) (step : Z) : option Z :=
  match flags with
  | [] => None
  | true :: _ => Some step
  | false :: flags' =>
      match flags' with
      | [] => None
      | true :: _ => Some step
      | false :: flags'' => run flags'' (step + 1)
      end
  end.

(** What holds of the object and its threads between any two calls: the
    threads were started in order, all were joined but the one that runs,
    and the object holds the running one. *)
Definition consistent (s : state) : Prop :=
  let '(self, ts) := s in
  started ts = seq 0 (next_thread ts) ∧
  if is_running self
  then ∃ t, thread self = Some t ∧ next_thread ts = S t ∧ joined ts = seq 0 t
  else joined ts = started ts.

End simulate_miner.

(** ** validator-api/app.py *)

Module validator_api.

Record HTTPBasicCredentials : Type := mk_HTTPBasicCredentials {
  username : string;
  password : string
}.

(** What a request ends in: a value, an [HTTPException], or an exception
    that nothing catches. *)
Inductive reply (A : Type) : Type :=
  | Returns (a : A)
  | HTTPException (status_code : Z) (detail : string)
  | Uncaught (e : exn).
Arguments Returns {A} a.
Arguments HTTPException {A} status_code detail.
Arguments Uncaught {A} e.

Definition HTTP_401_UNAUTHORIZED : Z := 401.
Definition HTTP_403_FORBIDDEN : Z := 403.

(** The two attributes of the metagraph that [validate] reads. *)
Record metagraph : Type := mk_metagraph {
  hotkeys : list string;
  validator_permit : list bool
}.

Section validator_api.

(** [Keypair(ss58_address=a).verify(data, signature)]. *)
Variable keypair_verify : string → string → string → outcome bool.

(** [score.score_and_upload_videos(videos, imagebind)]. *)
Variable Videos : Type.
Variable score_and_upload_videos : Videos → outcome Q.

Definition get_hotkey (credentials : HTTPBasicCredentials) : reply string :=
  match keypair_verify (username credentials) (username credentials)
          (password credentials) with
  | Ok true => Returns (username credentials)
  | Ok false => HTTPException HTTP_401_UNAUTHORIZED "Signature mismatch"
  | Raise e => Uncaught e
  end.

(** [list.index]: the first position of the element. *)
Definition index (x : string) (l : list string) : option nat :=
  fst <$> list_find (λ y, y = x) l.

(** The state is the list of submissions handed to the scoring service. *)
Definition validate (m : metagraph) (videos : Videos) (hotkey : string)
    (scored : list Videos) : reply Q * list Videos :=
  match index hotkey (hotkeys m) with
  | None => (HTTPException HTTP_403_FORBIDDEN "Valid hotkey required", scored)
  | Some uid =>
      match validator_permit m !! uid with
      | None => (Uncaught (mk_exn IndexError "index out of range"), scored)
      | Some false =>
          (HTTPException HTTP_403_FORBIDDEN "Validator permit required", scored)
      | Some true =>
          match score_and_upload_videos videos with
          | Ok computed_score => (Returns computed_score, scored ++ [videos])
          | Raise e => (Uncaught e, scored ++ [videos])
          end
      end
  end.

(** A caller that may have its submission scored: the signature is good,
    the key is registered, and the permit at the first position of the key
    is set. *)
Definition authorized (m : metagraph) (credentials : HTTPBasicCredentials) : Prop :=
  keypair_verify (username credentials) (username credentials) (password credentials)
  = Ok true ∧
  ∃ uid,
    hotkeys m !! uid = Some (username credentials) ∧
    (∀ j, (j < uid)%nat → hotkeys m !! j ≠ Some (username credentials)) ∧
    validator_permit m !! uid = Some true.

(** The route [/api/validate]: [hotkey] is [Depends(get_hotkey)]. *)
Definition api_validate (m : metagraph) (credentials : HTTPBasicCredentials)
    (videos : Videos) (scored : list Videos) : reply Q * list Videos :=
  match get_hotkey credentials with
  | Returns hotkey => validate m videos hotkey scored
  | HTTPException status_code detail => (HTTPException status_code detail, scored)
  | Uncaught e => (Uncaught e, scored)
  end.

End validator_api.
End validator_api.

(** ** More concrete services *)

Module Samples.

(** The query rewriter is down: every search attempt raises. *)
Definition search_down : provider :=
  {| augment := λ _ _, Raise (mk_exn OtherException "augment unavailable");
     extract_info := λ _ _, Ok (Some Demo.three);
     ydl_download := λ _ _ _ _, Ok 1000;
     ffmpeg_probe := λ _, Ok (Demo.one_video_stream Demo.ninety);
     ffmpeg_run := λ _ _ _ _, Ok tt |}.

(** An entry that lacks its identifier. *)
Definition nameless : entry :=
  {| e_id := None; e_title := Some "untitled"; e_description := None;
     e_duration := None; e_view_count := None |}.

(** The probe finds only an audio stream. *)
Definition audio_only : provider :=
  {| augment := λ _ q, Ok q;
     extract_info := λ _ _, Ok (Some Demo.three);
     ydl_download := λ _ _ _ _, Ok 1000;
     ffmpeg_probe := λ _, Ok [ {| codec_type := "audio"; duration := Some Demo.ninety |} ];
     ffmpeg_run := λ _ _ _ _, Ok tt |}.

Definition candidate_a : YoutubeResult :=
  {| video_id := Demo.id_a; title := "title"; description := Some "text";
     yt_length := 400; views := 7 |}.

Definition ffmpeg_copy_audio_ok : handle → handle → outcome unit := λ _ _, Ok tt.

(** A signature check that accepts the password "signed". *)
Definition keypair_verify : string → string → string → outcome bool :=
  λ _ _ signature, Ok (String.eqb signature "signed").

Definition score_and_upload_videos : nat → outcome Q := λ n, Ok (Qmake (Z.of_nat n) 10).

Definition metagraph : validator_api.metagraph :=
  {| validator_api.hotkeys := ["alice"; "bob"; "alice"];
     validator_api.validator_permit := [true; false; true] |}.

Definition alice : validator_api.HTTPBasicCredentials :=
  {| validator_api.username := "alice"; validator_api.password := "signed" |}.

Definition bob : validator_api.HTTPBasicCredentials :=
  {| validator_api.username := "bob"; validator_api.password := "signed" |}.

End Samples.

(** * Properties *)

(** ** seconds_to_str *)

Example seconds_to_str_3725 : seconds_to_str 3725 = "01:02:05".
Proof. vm_compute. reflexivity. Qed.

Example seconds_to_str_360000 : seconds_to_str 360000 = "100:00:00".
Proof. vm_compute. reflexivity. Qed.

Lemma is_nat_pretty_N_char (r : N) :
  (r < 10)%N → Ascii.is_nat (pretty_N_char r) = Some (N.to_nat r).
Proof.
  intros Hr.
  assert (r = 0 ∨ r = 1 ∨ r = 2 ∨ r = 3 ∨ r = 4 ∨ r = 5 ∨ r = 6 ∨ r = 7 ∨ r = 8 ∨ r = 9)%N
    as Hcases by lia.
  repeat (destruct Hcases as [->|Hcases]; [reflexivity|]). rewrite Hcases. reflexivity.
Qed.

Lemma pretty_N_go_app (x : N) (s rest : string) :
  pretty_N_go x s +:+ rest = pretty_N_go x (s +:+ rest).
Proof.
  revert s. induction (N.lt_wf_0 x) as [x _ IH]; intros s.
  assert (x = 0 ∨ 0 < x)%N as [->|Hx] by lia.
  - by rewrite !pretty_N_go_0.
  - rewrite (pretty_N_go_step x s), (pretty_N_go_step x (s +:+ rest)) by done.
    rewrite IH by (by apply N.div_lt). reflexivity.
Qed.

Lemma read_digits_pretty_N_go (x : N) :
  ∃ k, ∀ acc rest,
    read_digits acc (pretty_N_go x rest) = read_digits (acc * k + Z.of_N x) rest.
Proof.
  induction (N.lt_wf_0 x) as [x _ IH].
  assert (x = 0 ∨ 0 < x)%N as [->|Hx] by lia.
  - exists 1. intros acc rest. rewrite pretty_N_go_0. f_equal. lia.
  - destruct (IH (x `div` 10)%N) as [k Hk]; [by apply N.div_lt|].
    exists (10 * k). intros acc rest.
    rewrite pretty_N_go_step, Hk by done. simpl.
    rewrite is_nat_pretty_N_char by (apply N.mod_lt; lia).
    f_equal. rewrite N_nat_Z.
    rewrite (N.div_mod x 10) at 3 by lia.
    rewrite N2Z.inj_add, N2Z.inj_mul. simpl. lia.
Qed.

Lemma read_digits_pretty (z : Z) (rest : string) :
  0 ≤ z → read_digits 0 (pretty z +:+ rest) = read_digits z rest.
Proof.
  intros Hz. destruct z as [|p|p]; [done| |lia].
  unfold pretty, pretty_Z, pretty, pretty_positive, pretty, pretty_N.
  destruct (decide (N.pos p = 0%N)); [done|].
  rewrite pretty_N_go_app.
  destruct (read_digits_pretty_N_go (N.pos p)) as [k ->]. done.
Qed.

Lemma read_digits_fmt02 (z : Z) (rest : string) :
  0 ≤ z → read_digits 0 (Py.fmt02 z +:+ rest) = read_digits z rest.
Proof.
  intros Hz. unfold Py.fmt02. destruct (_ <? _)%nat.
  - change (read_digits 0 (pretty z +:+ rest) = read_digits z rest).
    by apply read_digits_pretty.
  - by apply read_digits_pretty.
Qed.

Lemma string_app_empty_r (s : string) : s +:+ "" = s.
Proof. induction s as [|c s IH]; [done|]. unfold String.app; fold String.app. by rewrite IH. Qed.

Lemma seconds_to_hms_sum (n : Z) :
  let '(h, m, s) := seconds_to_hms n in h * 3600 + m * 60 + s = n.
Proof.
  unfold seconds_to_hms.
  Z.div_mod_to_equations. lia.
Qed.

Lemma str_to_seconds_seconds_to_str (n : Z) :
  0 ≤ n → str_to_seconds (seconds_to_str n) = Some n.
Proof.
  intros Hn.
  pose proof (seconds_to_hms_sum n) as Hsum.
  unfold seconds_to_str.
  destruct (seconds_to_hms n) as [[h m] s] eqn:E.
  assert (0 ≤ h ∧ 0 ≤ m ∧ 0 ≤ s) as (Hh & Hm & Hs).
  { unfold seconds_to_hms in E. injection E as <- <- <-.
    split_and!; [apply Z.div_pos; lia | apply Z.div_pos; [apply Z.mod_pos_bound|]; lia
                | apply Z.mod_pos_bound; lia]. }
  unfold str_to_seconds.
  rewrite read_digits_fmt02 by done.
  change (read_digits h (":" +:+ ?r)) with (h, ":" +:+ r).
  change (":" +:+ ?r) with (String ":"%char r).
  cbv beta iota.
  rewrite read_digits_fmt02 by done.
  change (read_digits m (":" +:+ ?r)) with (m, ":" +:+ r).
  change (":" +:+ ?r) with (String ":"%char r).
  cbv beta iota.
  rewrite <- (string_app_empty_r (Py.fmt02 s)), read_digits_fmt02 by done.
  simpl. by rewrite Hsum.
Qed.

(** C10: for a nonnegative second count [n], [seconds_to_str] formats the
    components [h = n div 3600], [m] and [s] with [0 ≤ m < 60] and
    [0 ≤ s < 60], and [h * 3600 + m * 60 + s = n]; reading the formatted
    string back gives [n]. *)
Theorem seconds_to_str_components (n : Z) :
  0 ≤ n →
  ∃ h m s,
    seconds_to_hms n = (h, m, s) ∧
    seconds_to_str n = Py.fmt02 h +:+ ":" +:+ Py.fmt02 m +:+ ":" +:+ Py.fmt02 s ∧
    h = n / 3600 ∧ 0 ≤ h ∧ 0 ≤ m < 60 ∧ 0 ≤ s < 60 ∧
    h * 3600 + m * 60 + s = n ∧
    str_to_seconds (seconds_to_str n) = Some n.
Proof.
  intros Hn.
  pose proof (str_to_seconds_seconds_to_str n Hn) as Hback.
  pose proof (seconds_to_hms_sum n) as Hsum.
  unfold seconds_to_str.
  destruct (seconds_to_hms n) as [[h m] s] eqn:E.
  exists h, m, s.
  unfold seconds_to_hms in E. injection E as <- <- <-.
  repeat split; try done.
  - apply Z.div_pos; lia.
  - apply Z.div_pos; [apply Z.mod_pos_bound|]; lia.
  - apply Z.div_lt_upper_bound; [lia|]. pose proof (Z.mod_pos_bound n 3600); lia.
  - apply Z.mod_pos_bound; lia.
  - apply Z.mod_pos_bound; lia.
Qed.

Lemma seconds_to_str_components_witness :
  0 ≤ 3725 ∧
  ∃ h m s,
    seconds_to_hms 3725 = (h, m, s) ∧
    seconds_to_str 3725 = Py.fmt02 h +:+ ":" +:+ Py.fmt02 m +:+ ":" +:+ Py.fmt02 s ∧
    h = 3725 / 3600 ∧ 0 ≤ h ∧ 0 ≤ m < 60 ∧ 0 ≤ s < 60 ∧
    h * 3600 + m * 60 + s = 3725 ∧
    str_to_seconds (seconds_to_str 3725) = Some 3725.
Proof. split; [lia | apply (seconds_to_str_components 3725); lia]. Defined.

(** ** The search stage *)

(** C9: an entry with an identifier and a title always yields a candidate;
    a missing duration becomes [FIVE_MINUTES] (300 seconds) and a missing
    view count becomes zero. *)
Theorem make_result_defaults (e : entry) (id t : string) :
  e_id e = Some id → e_title e = Some t →
  ∃ yt, video_utils.make_result e = Ok yt ∧
        video_id yt = id ∧ title yt = t ∧
        (e_duration e = None → yt_length yt = FIVE_MINUTES ∧ yt_length yt = 300) ∧
        (e_view_count e = None → views yt = 0).
Proof.
  intros Hid Ht. unfold video_utils.make_result. rewrite Hid, Ht.
  eexists; split; [reflexivity|]; simpl.
  split_and!; [done | done | by intros -> | by intros ->].
Qed.

Lemma make_result_defaults_witness :
  let e := mk_entry (Some Demo.id_a) (Some "t") None None None in
  ∃ yt, video_utils.make_result e = Ok yt ∧
        video_id yt = Demo.id_a ∧ title yt = "t" ∧
        (e_duration e = None → yt_length yt = FIVE_MINUTES ∧ yt_length yt = 300) ∧
        (e_view_count e = None → views yt = 0).
Proof.
  exact (make_result_defaults (mk_entry (Some Demo.id_a) (Some "t") None None None)
           Demo.id_a "t" eq_refl eq_refl).
Defined.

(** ** The download and clip stages *)

Section stage_facts.

Variable P : provider.

Lemma download_video_invalid_id video_id start end_ proxy w :
  video_utils.is_valid_id video_id = false →
  video_utils.download_video P video_id start end_ proxy w
  = (Raise (mk_exn FakeVideoException ("Invalid video ID: " +:+ video_id)), w).
Proof. intros H. unfold video_utils.download_video. by rewrite H. Qed.

(** What [download_video] does for a well-formed identifier, by cases on
    what the transfer did. *)
Lemma download_video_cases video_id start end_ proxy w :
  video_utils.is_valid_id video_id = true →
  video_utils.download_video P video_id start end_ proxy w =
  match ydl_download P (video_utils.video_url video_id) (next_handle w)
          (video_utils.download_ranges start end_)
          (default video_utils.default_proxy proxy) with
  | Ok st_size =>
      if st_size =? 0 then (Ok None, created_and_closed w)
      else (Ok (Some (next_handle w)), created w)
  | Raise e =>
      if video_utils.says_blocked (exn_str e)
      then (Raise (mk_exn IPBlockedException (exn_str e)), created_and_closed w)
      else if video_utils.says_unavailable (exn_str e)
      then (Raise (mk_exn FakeVideoException (exn_str e)), created_and_closed w)
      else (Ok None, created_and_closed w)
  end.
Proof.
  intros H. unfold video_utils.download_video. rewrite H. simpl.
  unfold_M. simpl.
  destruct (ydl_download P _ _ _ _) as [sz|e]; simpl.
  - by destruct (sz =? 0).
  - destruct (video_utils.says_blocked _); [done|].
    by destruct (video_utils.says_unavailable _).
Qed.

Lemma clip_video_cases video_path start end_ w :
  video_utils.clip_video P video_path start end_ w =
  match ffmpeg_run P video_path (seconds_to_str start) (seconds_to_str end_)
          (next_handle w) with
  | Ok _ => (Ok (next_handle w), created w)
  | Raise e => (Raise e, created w)
  end.
Proof.
  unfold video_utils.clip_video. unfold_M. simpl.
  by destruct (ffmpeg_run P _ _ _ _).
Qed.

End stage_facts.



(** The tests are tried in order: a message that carries both a blocked and
    an unavailable marker raises [IPBlockedException]. *)
Example blocked_test_comes_first :
  let e := mk_exn OtherException
             "ERROR: Video unavailable. Requested format is not available" in
  (video_utils.download_video (Demo.download_fails Demo.id_b e [] Demo.ninety)
     Demo.id_b (Some 0) (Some 90) None empty_world).1
  = Raise (mk_exn IPBlockedException (exn_str e)).
Proof. reflexivity. Qed.

(** ** Merging the search attempts *)

Lemma slice_to_prefix {A} (l : list A) (k : Z) : Py.slice_to l k `prefix_of` l.
Proof. unfold Py.slice_to. destruct (0 <=? k); apply prefix_take. Qed.

Lemma slice_to_length_le {A} (l : list A) (k : Z) :
  0 ≤ k → Z.of_nat (length (Py.slice_to l k)) ≤ k.
Proof.
  intros Hk. unfold Py.slice_to.
  destruct (Z.leb_spec 0 k); [|lia].
  rewrite length_take. lia.
Qed.

Lemma Forall_of_prefix {A} (Q : A → Prop) (l1 l2 : list A) :
  Forall Q l2 → l1 `prefix_of` l2 → Forall Q l1.
Proof. intros H [k ->]. by apply Forall_app in H as [H _]. Qed.

Section merge_facts.

Variable existing_ids : gset string.
Variable P : provider.

Local Abbreviation search := (video_utils.search existing_ids P).
Local Abbreviation search_videos := (video_utils.search_videos existing_ids P).
Local Abbreviation batches := (video_utils.batches existing_ids P).

Lemma merge_completed_prefix num_videos futures filtered_videos :
  video_utils.merge_completed num_videos futures filtered_videos
  `prefix_of` filtered_videos ++ concat (default [] <$> futures).
Proof.
  revert filtered_videos.
  induction futures as [|f futures IH]; intros acc; simpl.
  - by rewrite app_nil_r.
  - destruct f as [[|v vs]|]; simpl.
    + apply IH.
    + destruct (_ >=? _).
      * exists (concat (default [] <$> futures)). by rewrite <- app_assoc.
      * destruct (IH (acc ++ v :: vs)) as [k Hk]. exists k.
        rewrite <- Hk. by rewrite <- app_assoc.
    + apply IH.
Qed.

Lemma merge_completed_Forall (Q : YoutubeResult → Prop) num_videos futures filtered_videos :
  Forall Q filtered_videos →
  Forall (λ f, Forall Q (default [] f)) futures →
  Forall Q (video_utils.merge_completed num_videos futures filtered_videos).
Proof.
  intros Hacc Hf.
  eapply Forall_of_prefix; [|apply merge_completed_prefix].
  apply Forall_app; split; [done|].
  apply Forall_concat, Forall_fmap.
  eapply Forall_impl; [apply Hf|]. done.
Qed.

Lemma search_not_known attempt query :
  Forall (λ video, video_id video ∉ existing_ids) (default [] (search attempt query)).
Proof.
  unfold video_utils.search, video_utils.search_body.
  destruct (augment P attempt query) as [aq|]; simpl; [|done].
  destruct (extract_info P attempt _) as [res|]; simpl; [|done].
  destruct (default [] res) as [|e es]; [done|]. cbv beta iota.
  destruct (mapM video_utils.make_result (e :: es)) as [videos|]; simpl; [|done].
  apply list.Forall_forall. intros v Hv.
  by apply list_elem_of_filter in Hv as [Hv _].
Qed.

Lemma search_videos_prefix query max_results num_videos :
  search_videos query max_results num_videos None
  `prefix_of` concat (batches query).
Proof.
  unfold video_utils.search_videos. simpl.
  destruct (_ >=? _).
  - etrans; [apply slice_to_prefix|]. apply prefix_nil.
  - etrans; [apply slice_to_prefix|].
    pose proof (merge_completed_prefix num_videos
                  ((λ attempt, search attempt query) <$> seq 0 3) []) as H.
    unfold video_utils.batches. rewrite <- list_fmap_compose in H. exact H.
Qed.

Lemma search_videos_not_known query max_results num_videos :
  Forall (λ video, video_id video ∉ existing_ids)
    (search_videos query max_results num_videos None).
Proof.
  eapply Forall_of_prefix; [|apply search_videos_prefix].
  apply Forall_concat, Forall_fmap, list.Forall_forall.
  intros attempt _. apply search_not_known.
Qed.

(** The same for a call that passes its own [filtered_videos], when that
    list is free of known identifiers. *)
Lemma search_videos_seeded_not_known query max_results num_videos seed :
  Forall (λ video, video_id video ∉ existing_ids) seed →
  Forall (λ video, video_id video ∉ existing_ids)
    (search_videos query max_results num_videos (Some seed)).
Proof.
  intros Hseed. unfold video_utils.search_videos.
  change (default [] (Some seed)) with seed. cbv zeta.
  destruct (_ >=? _).
  - eapply Forall_of_prefix; [apply Hseed|apply slice_to_prefix].
  - eapply Forall_of_prefix; [|apply slice_to_prefix].
    apply merge_completed_Forall; [done|].
    apply Forall_fmap, list.Forall_forall. intros attempt _. apply search_not_known.
Qed.

(** A quota that is not positive asks for nothing. *)
Lemma search_videos_no_quota query num_videos :
  num_videos ≤ 0 →
  search_videos query (Py.int_times_1_5 num_videos) num_videos None = [].
Proof.
  intros Hn. unfold video_utils.search_videos. simpl.
  assert (Hq : Py.int_times_1_5 num_videos ≤ 0).
  { unfold Py.int_times_1_5.
    rewrite <- (Z.opp_involutive (3 * num_videos)), Z.quot_opp_l by lia.
    assert (Hp : 0 ≤ Z.quot (- (3 * num_videos)) 2) by (apply Z.quot_pos; lia).
    revert Hp. generalize (Z.quot (- (3 * num_videos)) 2). intros; lia. }
  destruct (_ >=? _) eqn:E; [|rewrite Z.geb_leb in E; apply Z.leb_gt in E; lia].
  unfold Py.slice_to. destruct (0 <=? _); apply take_nil.
Qed.

Lemma search_videos_length query num_videos :
  0 ≤ num_videos →
  Z.of_nat (length (search_videos query (Py.int_times_1_5 num_videos) num_videos None))
  ≤ Py.int_times_1_5 num_videos.
Proof.
  intros Hn. unfold video_utils.search_videos. simpl.
  assert (Hq : 0 ≤ Py.int_times_1_5 num_videos).
  { unfold Py.int_times_1_5. apply Z.quot_pos; lia. }
  destruct (_ >=? _); by apply slice_to_length_le.
Qed.

End merge_facts.

(** ** The thread pool *)

Lemma complete_in_order_perm {A} (sched : list nat) (pending : list A) (n : nat) :
  n = length pending → complete_in_order sched pending n ≡ₚ pending.
Proof.
  revert sched pending.
  induction n as [|n IH]; intros sched pending Hn; simpl.
  - by destruct pending.
  - assert (Hk : (hd 0 sched `mod` length pending < length pending)%nat).
    { apply Nat.mod_upper_bound. lia. }
    destruct (lookup_lt_is_Some_2 _ _ Hk) as [x Hx]. rewrite Hx.
    etrans; [|symmetry; apply (delete_Permutation pending _ x Hx)].
    constructor. apply IH. rewrite length_delete by eauto. lia.
Qed.

Lemma as_completed_perm {A} (sched : list nat) (futures : list A) :
  as_completed sched futures ≡ₚ futures.
Proof. by apply complete_in_order_perm. Qed.

(** ** One candidate *)

Section candidate_facts.

Variable MAX_VIDEO_LENGTH : Z.
Variable P : provider.
Variable vec : Type.

Local Abbreviation get_relevant_timestamps :=
  (miner_utils.get_relevant_timestamps MAX_VIDEO_LENGTH).
Local Abbreviation process_video := (miner_utils.process_video MAX_VIDEO_LENGTH P vec).
Local Abbreviation populated_from := (miner_utils.populated_from MAX_VIDEO_LENGTH vec).

Lemma miner_download_video_cases result w :
  miner_utils.download_video P result w =
  match video_utils.download_video P (video_id result) (Some 0)
          (Some (Py.min (yt_length result) FIVE_MINUTES)) None w with
  | (Ok (Some download_path), w') =>
      match video_utils.get_video_duration P download_path with
      | Ok len => (Ok (Some (miner_utils.set_length result len, download_path)), w')
      | Raise e => (Raise e, w')
      end
  | (Ok None, w') => (Ok None, w')
  | (Raise e, w') => (Raise e, w')
  end.
Proof.
  unfold miner_utils.download_video. unfold_M.
  destruct (video_utils.download_video _ _ _ _ _ _) as [[[h|]|e] w']; try done.
Qed.

(** A finished download carries the length measured on its own file. *)
Lemma miner_download_video_measured result w result' download_path w' :
  miner_utils.download_video P result w = (Ok (Some (result', download_path)), w') →
  ∃ len, video_utils.get_video_duration P download_path = Ok len ∧
         result' = miner_utils.set_length result len.
Proof.
  rewrite miner_download_video_cases.
  destruct (video_utils.download_video _ _ _ _ _ _) as [[[h|]|e] w1]; try done.
  destruct (video_utils.get_video_duration P h) as [len|] eqn:E; [|done].
  intros [= <- <- <-]. eauto.
Qed.

Lemma process_video_cases result download_path imagebind query w :
  process_video result download_path imagebind query w =
  let description := miner_utils.get_description result download_path in
  let end_ := Py.min (yt_length result) MAX_VIDEO_LENGTH in
  match ffmpeg_run P download_path (seconds_to_str 0) (seconds_to_str end_)
          (next_handle w) with
  | Raise e => (Raise e, miner_utils.processed download_path false w)
  | Ok _ =>
      (embeddings ← embed imagebind [description] [next_handle w];
       v ← item0 (emb_video embeddings);
       a ← item0 (emb_audio embeddings);
       d ← item0 (emb_description embeddings);
       Ok (mk_VideoMetadata (video_id result) description (views result) 0 end_ v a d),
       miner_utils.processed download_path true w)
  end.
Proof.
  unfold miner_utils.process_video, miner_utils.processed.
  unfold miner_utils.get_relevant_timestamps.
  unfold_M. rewrite clip_video_cases. unfold created. simpl.
  destruct (ffmpeg_run P _ _ _ _); simpl; [|done].
  destruct (embed imagebind _ _) as [em|]; simpl; [|by rewrite <- app_assoc].
  destruct (item0 (emb_video em)); simpl; [|by rewrite <- app_assoc].
  destruct (item0 (emb_audio em)); simpl; [|by rewrite <- app_assoc].
  destruct (item0 (emb_description em)); simpl; by rewrite <- app_assoc.
Qed.

Lemma process_video_populated result download_path imagebind query w m w' :
  process_video result download_path imagebind query w = (Ok m, w') →
  populated_from imagebind result download_path m.
Proof.
  rewrite process_video_cases. cbv zeta.
  destruct (ffmpeg_run P _ _ _ _); [|done].
  destruct (embed imagebind _ _) as [em|] eqn:E; simpl; [|done].
  destruct (item0 (emb_video em)) eqn:Ev; simpl; [|done].
  destruct (item0 (emb_audio em)) eqn:Ea; simpl; [|done].
  destruct (item0 (emb_description em)) eqn:Ed; simpl; [|done].
  intros [= <- <-]. exists (next_handle w), em. by split_and!.
Qed.

End candidate_facts.

(** ** The completion loop *)

Section pipeline_facts.

Variable MAX_VIDEO_LENGTH : Z.
Variable existing_ids : gset string.
Variable P : provider.
Variable vec : Type.

Local Abbreviation process_video := (miner_utils.process_video MAX_VIDEO_LENGTH P vec).
Local Abbreviation process_completed :=
  (miner_utils.process_completed MAX_VIDEO_LENGTH P vec).
Local Abbreviation download_and_process :=
  (miner_utils.download_and_process MAX_VIDEO_LENGTH P vec).
Local Abbreviation search_and_embed_videos :=
  (miner_utils.search_and_embed_videos MAX_VIDEO_LENGTH existing_ids P vec).
Local Abbreviation yields := (miner_utils.yields MAX_VIDEO_LENGTH P vec).
Local Abbreviation fails := (miner_utils.fails MAX_VIDEO_LENGTH P vec).
Local Abbreviation populated_from := (miner_utils.populated_from MAX_VIDEO_LENGTH vec).
Local Abbreviation candidates query num_videos :=
  (video_utils.search_videos existing_ids P query
     (Py.int_times_1_5 num_videos) num_videos None).

(** Every task runs, and its future holds what the download did. *)
Lemma run_tasks_total results w :
  ∃ download_tasks w',
    miner_utils.run_tasks P results w = (Ok download_tasks, w') ∧
    Forall2 (λ result task, ∃ wa wb, miner_utils.download_video P result wa = (task, wb))
      results download_tasks.
Proof.
  revert w. induction results as [|result results IH]; intros w; simpl.
  - by eexists _, _.
  - destruct (miner_utils.download_video P result w) as [r w1] eqn:E.
    destruct (IH w1) as (tasks & w2 & Hrun & Hall).
    unfold_M. rewrite Hrun.
    eexists _, _. split; [done|]. constructor; eauto.
Qed.

Lemma process_completed_nil num_videos imagebind query s :
  process_completed num_videos imagebind query [] s = (Ok tt, s).
Proof. done. Qed.

Lemma process_completed_cons num_videos imagebind query task tasks video_metas w :
  process_completed num_videos imagebind query (task :: tasks) (video_metas, w) =
  match task with
  | Raise e => (Raise e, (video_metas, w))
  | Ok None => (miner_utils.unpack None ≫= λ _, Ok tt, (video_metas, w))
  | Ok (Some (result, download_path)) =>
      match process_video result download_path imagebind query w with
      | (Raise e, w') => (Raise e, (video_metas, w'))
      | (Ok video_meta, w') =>
          if Z.of_nat (length (video_metas ++ [video_meta])) =? num_videos
          then (Ok tt, (video_metas ++ [video_meta], w'))
          else process_completed num_videos imagebind query tasks
                 (video_metas ++ [video_meta], w')
      end
  end.
Proof.
  simpl. unfold_M.
  destruct task as [[[result download_path]|]|e]; simpl; try done.
  destruct (miner_utils.process_video _ _ _ _ _ _ _ _) as [[m|e] w']; simpl; [|done].
  by destruct (_ =? _).
Qed.

(** The loop adds one record per task it consumes, in order, and stops at
    the first task that fails. *)
Lemma process_completed_trace num_videos imagebind query tasks video_metas w oc
    video_metas' w' :
  process_completed num_videos imagebind query tasks (video_metas, w)
  = (oc, (video_metas', w')) →
  ∃ consumed new,
    video_metas' = video_metas ++ new ∧
    Forall2 (yields imagebind query) consumed new ∧
    consumed `prefix_of` tasks ∧
    ∀ e, oc = Raise e →
         ∃ bad rest, tasks = consumed ++ bad :: rest ∧ fails imagebind query bad e.
Proof.
  revert video_metas w.
  induction tasks as [|task tasks IH]; intros acc w.
  - rewrite process_completed_nil. intros [= <- <- <-].
    exists [], []. rewrite app_nil_r. split_and!; [done|constructor|done|done].
  - rewrite process_completed_cons.
    destruct task as [[[result download_path]|]|e].
    + destruct (miner_utils.process_video _ _ _ _ _ _ _ _) as [[m|e] w1] eqn:E.
      * assert (Hy : yields imagebind query (Ok (Some (result, download_path))) m).
        { by exists result, download_path, w, w1. }
        destruct (_ =? _).
        -- intros [= <- <- <-].
           exists [Ok (Some (result, download_path))], [m].
           split_and!; [done|by repeat constructor| |done].
           by apply prefix_cons, prefix_nil.
        -- intros Hrec. apply IH in Hrec as (consumed & new & -> & Hall & Hpre & Hfail).
           exists (Ok (Some (result, download_path)) :: consumed), (m :: new).
           split_and!.
           ++ by rewrite <- app_assoc.
           ++ by constructor.
           ++ by apply prefix_cons.
           ++ intros e He. destruct (Hfail e He) as (bad & rest & -> & Hbad).
              by exists bad, rest.
      * intros [= <- <- <-]. exists [], []. rewrite app_nil_r.
        split_and!; [done|constructor|apply prefix_nil|].
        intros e' [= <-]. exists (Ok (Some (result, download_path))), tasks.
        split; [done|]. right; right. by exists result, download_path, w, w1.
    + intros [= <- <- <-]. exists [], []. rewrite app_nil_r.
      split_and!; [done|constructor|apply prefix_nil|].
      intros e' [= <-]. exists (Ok None), tasks. split; [done|]. right; left. done.
    + intros [= <- <- <-]. exists [], []. rewrite app_nil_r.
      split_and!; [done|constructor|apply prefix_nil|].
      intros e' [= <-]. exists (Raise e), tasks. split; [done|]. by left.
Qed.

(** Counting: below the quota the loop never passes it; it ends on the
    quota or on the last task unless a task fails. *)
Lemma process_completed_length num_videos imagebind query tasks video_metas w oc
    video_metas' w' :
  process_completed num_videos imagebind query tasks (video_metas, w)
  = (oc, (video_metas', w')) →
  Z.of_nat (length video_metas) < num_videos →
  Z.of_nat (length video_metas') ≤ num_videos ∧
  (∀ e, oc = Raise e → Z.of_nat (length video_metas') < num_videos) ∧
  (oc = Ok tt →
   Z.of_nat (length video_metas') = num_videos ∨
   length video_metas' = (length video_metas + length tasks)%nat).
Proof.
  revert video_metas w.
  induction tasks as [|task tasks IH]; intros acc w.
  - rewrite process_completed_nil. intros [= <- <- <-] Hlt.
    split_and!; [lia|done|]. intros _. right. simpl. lia.
  - rewrite process_completed_cons.
    destruct task as [[[result download_path]|]|e].
    + destruct (miner_utils.process_video _ _ _ _ _ _ _ _) as [[m|e] w1] eqn:E.
      * destruct (Z.eqb_spec (Z.of_nat (length (acc ++ [m]))) num_videos) as [Heq|Hne].
        -- intros [= <- <- <-] Hlt. split_and!; [lia|done|]. intros _. by left.
        -- intros Hrec Hlt. rewrite length_app in Hne. simpl in Hne.
           apply IH in Hrec; [|rewrite length_app; simpl; lia].
           destruct Hrec as (H1 & H2 & H3). split_and!; [done|done|].
           intros Hoc. destruct (H3 Hoc) as [?|Hl]; [by left|right].
           rewrite Hl, length_app. simpl. lia.
      * intros [= <- <- <-] Hlt. split_and!; [lia|intros; lia|done].
    + simpl. intros [= <- <- <-] Hlt. split_and!; [lia|intros; lia|done].
    + intros [= <- <- <-] Hlt. split_and!; [lia|intros; lia|done].
Qed.

Lemma Forall2_sources {A B} (R : A → B → Prop) (l : list A) (k : list B) :
  Forall2 R l k → Forall (λ y, ∃ x, x ∈ l ∧ R x y) k.
Proof.
  induction 1 as [|x y l k HR _ IH]; constructor.
  - exists x. split; [left|done].
  - eapply Forall_impl; [apply IH|]. intros y' (x' & Hin & HR'). exists x'.
    split; [by right|done].
Qed.

Lemma download_and_process_unfold sched results query num_videos imagebind w :
  ∃ download_tasks w1,
    miner_utils.run_tasks P (as_completed sched results) w = (Ok download_tasks, w1) ∧
    Forall2 (λ result task, ∃ wa wb, miner_utils.download_video P result wa = (task, wb))
      (as_completed sched results) download_tasks ∧
    download_and_process sched results query num_videos imagebind ([], w)
    = process_completed num_videos imagebind query download_tasks ([], w1).
Proof.
  destruct (run_tasks_total (as_completed sched results) w) as (tasks & w1 & Hrun & Hall).
  exists tasks, w1. split_and!; [done|done|].
  unfold miner_utils.download_and_process. unfold_M. by rewrite Hrun.
Qed.

(** The handler swallows what the loop raised; the list is what the loop had
    gathered. *)
Lemma search_and_embed_videos_unfold sched query num_videos imagebind w :
  search_and_embed_videos sched query num_videos imagebind w =
  match download_and_process sched (candidates query num_videos) query num_videos
          imagebind ([], w) with
  | (_, (video_metas, w')) => (Ok video_metas, w')
  end.
Proof.
  unfold miner_utils.search_and_embed_videos. unfold_M.
  by destruct (miner_utils.download_and_process _ _ _ _ _ _ _ _ _)
    as [[[]|e] [video_metas w']].
Qed.

(** Where a returned record comes from: a candidate of the search, the
    length measured on its downloaded file, and the model's vectors. *)
Lemma returned_provenance sched query num_videos imagebind w :
  Forall
    (λ m, ∃ result len download_path,
        result ∈ candidates query num_videos ∧
        video_utils.get_video_duration P download_path = Ok len ∧
        populated_from imagebind (miner_utils.set_length result len) download_path m)
    (returned (search_and_embed_videos sched query num_videos imagebind w)).
Proof.
  rewrite search_and_embed_videos_unfold.
  destruct (download_and_process_unfold sched (candidates query num_videos) query
              num_videos imagebind w) as (tasks & w1 & _ & Hdl & ->).
  destruct (process_completed _ _ _ _ _) as [oc [video_metas w2]] eqn:E.
  unfold returned. simpl.
  apply process_completed_trace in E as (consumed & new & -> & Hy & [rest ->] & _).
  simpl. apply Forall2_sources in Hy. apply Forall2_sources in Hdl.
  eapply Forall_impl; [apply Hy|]. clear Hy.
  intros m (task & Hin & (result' & h & wa & wb & -> & Hpv)).
  rewrite list.Forall_forall in Hdl.
  destruct (Hdl (Ok (Some (result', h)))) as (result & Hres & wc & wd & Hd).
  { apply elem_of_app. by left. }
  apply miner_download_video_measured in Hd as (len & Hlen & ->).
  exists result, len, h. split_and!; [|done|by eapply process_video_populated].
  by rewrite <- (as_completed_perm sched).
Qed.

End pipeline_facts.

(** ** The pipeline *)

Section pipeline_claims.

Variable MAX_VIDEO_LENGTH : Z.
Variable existing_ids : gset string.
Variable P : provider.
Variable vec : Type.

Local Abbreviation process_completed :=
  (miner_utils.process_completed MAX_VIDEO_LENGTH P vec).
Local Abbreviation download_and_process :=
  (miner_utils.download_and_process MAX_VIDEO_LENGTH P vec).
Local Abbreviation search_and_embed_videos :=
  (miner_utils.search_and_embed_videos MAX_VIDEO_LENGTH existing_ids P vec).
Local Abbreviation yields := (miner_utils.yields MAX_VIDEO_LENGTH P vec).
Local Abbreviation fails := (miner_utils.fails MAX_VIDEO_LENGTH P vec).
Local Abbreviation populated_from := (miner_utils.populated_from MAX_VIDEO_LENGTH vec).
Local Abbreviation candidates query num_videos :=
  (video_utils.search_videos existing_ids P query
     (Py.int_times_1_5 num_videos) num_videos None).


(** C2, as the code has it: the list has at most [num_videos] records (none
    when [num_videos] is not positive), each with every field set from a
    candidate; and for a quota that is not negative, when the loop ends
    without an exception (no task consumed before the quota is met fails) and
    the search supplied at least [num_videos] candidates, exactly
    [num_videos] records are returned. *)
Theorem quota_is_respected sched query num_videos imagebind w :
  let video_metas :=
    returned (search_and_embed_videos sched query num_videos imagebind w) in
  Z.of_nat (length video_metas) ≤ Z.max 0 num_videos ∧
  Forall (λ m, ∃ result download_path, populated_from imagebind result download_path m)
    video_metas ∧
  (0 ≤ num_videos →
   (download_and_process sched (candidates query num_videos) query num_videos
      imagebind ([], w)).1 = Ok tt →
   num_videos ≤ Z.of_nat (length (candidates query num_videos)) →
   Z.of_nat (length video_metas) = num_videos).
Proof.
  intros video_metas.
  assert (Hpop : Forall (λ m, ∃ result download_path,
                           populated_from imagebind result download_path m) video_metas).
  { eapply Forall_impl; [apply returned_provenance|].
    intros m (result & len & h & _ & _ & Hp). eauto. }
  subst video_metas. revert Hpop.
  rewrite search_and_embed_videos_unfold.
  destruct (download_and_process_unfold MAX_VIDEO_LENGTH P vec sched
              (candidates query num_videos) query num_videos imagebind w)
    as (tasks & w1 & _ & Hdl & ->).
  destruct (process_completed _ _ _ _ _) as [oc [video_metas w2]] eqn:E.
  unfold returned. simpl. intros Hpop.
  apply Forall2_length in Hdl. rewrite (as_completed_perm sched) in Hdl.
  unfold miner_utils.future in *.
  destruct (Z.le_gt_cases num_videos 0) as [Hle|Hpos].
  - rewrite search_videos_no_quota in Hdl by done.
    destruct tasks; [|done].
    rewrite process_completed_nil in E.
    injection E as <- <- <-. simpl. split_and!; [lia|done|lia].
  - destruct (process_completed_length _ _ _ _ _ _ _ _ _ _ _ _ E) as (H1 & _ & H3).
    { simpl. lia. }
    split_and!; [lia|done|].
    intros _ -> Hlen. destruct (H3 eq_refl) as [?|Hl]; [done|].
    simpl in Hl. unfold miner_utils.future in *. lia.
Qed.


(** C7: no identifier of [existing_ids] is among the candidates that
    [search_videos] returns, nor among the records that
    [search_and_embed_videos] returns. *)
Theorem known_ids_never_returned sched query max_results num_videos imagebind w :
  Forall (λ video, video_id video ∉ existing_ids)
    (video_utils.search_videos existing_ids P query max_results num_videos None) ∧
  Forall (λ m, vm_video_id m ∉ existing_ids)
    (returned (search_and_embed_videos sched query num_videos imagebind w)).
Proof.
  split; [apply search_videos_not_known|].
  eapply Forall_impl; [apply returned_provenance|].
  intros m (result & len & h & Hin & _ & Hp).
  destruct Hp as (c & em & _ & _ & _ & _ & -> & _).
  simpl.
  pose proof (search_videos_not_known existing_ids P query
                (Py.int_times_1_5 num_videos) num_videos) as Hall.
  rewrite list.Forall_forall in Hall. by apply Hall.
Qed.

End pipeline_claims.

(** ** The pipeline on concrete services *)

Lemma quota_is_respected_witness :
  Z.of_nat (length (returned
    (miner_utils.search_and_embed_videos Demo.MAX_VIDEO_LENGTH ∅
       (Demo.ok_provider Demo.twenty Demo.ninety) Demo.vec [3; 1; 4; 1; 5]%nat
       "q" 8 Demo.imagebind empty_world))) = 8.
Proof.
  refine (proj2 (proj2 (quota_is_respected Demo.MAX_VIDEO_LENGTH ∅
            (Demo.ok_provider Demo.twenty Demo.ninety) Demo.vec [3; 1; 4; 1; 5]%nat
            "q" 8 Demo.imagebind empty_world)) _ _ _).
  - lia.
  - vm_compute. reflexivity.
  - vm_compute. discriminate.
Defined.


(** A failure in the middle: a completes and is processed, the download of
    b is blocked, c is never processed. *)
Example failure_keeps_earlier_records :
  returned
    (miner_utils.search_and_embed_videos Demo.MAX_VIDEO_LENGTH ∅
       (Demo.download_fails Demo.id_b Demo.blocked Demo.three Demo.ninety)
       Demo.vec [] "q" 3 Demo.imagebind empty_world)
  = [mk_VideoMetadata Demo.id_a ("title " +:+ Demo.id_a) 7 0 90 [1] [2] [3]].
Proof. vm_compute. reflexivity. Qed.

(** C2, as the spec words it, fails: three candidates are downloaded, b
    completes first and the model rejects its clip; a and c would get through
    every stage, two records are asked for, none is returned. *)
Lemma quota_is_met_counterexample :
  ¬ miner_utils.quota_is_met Demo.MAX_VIDEO_LENGTH ∅
      (Demo.ok_provider Demo.three Demo.ninety)
      Demo.vec [1%nat] "q" 2 (Demo.imagebind_rejects Demo.id_b) empty_world.
Proof.
  intros H.
  specialize (H _ _ eq_refl).
  match type of H with
  | ?A → _ => assert (Hc : A) by (vm_compute; discriminate)
  end.
  specialize (H Hc). vm_compute in H. discriminate.
Qed.


Example half_a_second_measures_zero :
  video_utils.get_video_duration
    (Demo.ok_provider [Demo.entry_of Demo.id_a] (Qmake 1 2)) 0%nat = Ok 0.
Proof. reflexivity. Qed.

(** ** The merge of the search attempts, on the whole *)

(** C6, as the code has it: [search_videos] appends the batches of the
    attempts in completion order and compares no identifiers: what it returns
    is a prefix of the concatenation of the three batches, so it is free of
    duplicates whenever that concatenation is. *)
Theorem search_videos_concatenates (existing_ids : gset string) (P : provider)
    (query : string) (max_results num_videos : Z) :
  video_utils.search_videos existing_ids P query max_results num_videos None
  `prefix_of` concat (video_utils.batches existing_ids P query) ∧
  (NoDup (video_id <$> concat (video_utils.batches existing_ids P query)) →
   video_utils.merged_without_duplicates existing_ids P query max_results num_videos).
Proof.
  split; [apply search_videos_prefix|].
  unfold video_utils.merged_without_duplicates.
  destruct (search_videos_prefix existing_ids P query max_results num_videos) as [k ->].
  rewrite fmap_app. by intros [? _]%NoDup_app.
Qed.

Lemma search_videos_concatenates_witness :
  video_utils.merged_without_duplicates ∅
    (Demo.per_attempt
       (λ attempt, [Demo.entry_of (Demo.numbered_id attempt)]) Demo.ninety)
    "q" 4 3.
Proof.
  refine (proj2 (search_videos_concatenates ∅
            (Demo.per_attempt
               (λ attempt, [Demo.entry_of (Demo.numbered_id attempt)]) Demo.ninety)
            "q" 4 3) _).
  apply (bool_decide_unpack _). vm_compute. exact I.
Defined.

(** C6, as the spec words it, fails: two attempts return the same two
    videos, four candidates are asked for, and each video comes back twice. *)
Lemma merged_without_duplicates_counterexample :
  ¬ video_utils.merged_without_duplicates ∅
      (Demo.ok_provider (Demo.entry_of <$> [Demo.id_a; Demo.id_b]) Demo.ninety)
      "q" 6 4.
Proof.
  unfold video_utils.merged_without_duplicates.
  assert (E : video_id <$>
                video_utils.search_videos ∅
                  (Demo.ok_provider (Demo.entry_of <$> [Demo.id_a; Demo.id_b]) Demo.ninety)
                  "q" 6 4 None
              = [Demo.id_a; Demo.id_b; Demo.id_a; Demo.id_b])
    by (vm_compute; reflexivity).
  rewrite E. intros [Hnot _]%NoDup_cons.
  apply Hnot. set_solver.
Qed.

(** ** Temporary files that stay open *)

(** C8 on the code: ffmpeg fails on the downloaded file 0; [clip_video] has
    created the output file 1, raises ffmpeg's error, and has closed
    nothing. *)
Theorem clip_video_failure_keeps_output :
  let r := video_utils.clip_video (Demo.clip_fails 0%nat [] Demo.ninety) 0%nat 0 90
             (mk_world 1 [0%nat] []) in
  r.1 = Raise (mk_exn OtherException "ffmpeg error") ∧
  opened r.2 = [0; 1]%nat ∧
  closed r.2 = [] ∧
  close_count r.2 1%nat = 0%nat ∧
  open_handles r.2 = [0; 1]%nat.
Proof. vm_compute. done. Qed.

(** The same failure seen from [process_video]: its [finally] closes the
    download, and the clip's file stays open. *)
Example process_video_clip_failure :
  let r := miner_utils.process_video Demo.MAX_VIDEO_LENGTH
             (Demo.clip_fails 0%nat [] Demo.ninety) Demo.vec
             (mk_YoutubeResult Demo.id_a "t" None 90 7) 0%nat Demo.imagebind "q"
             (mk_world 1 [0%nat] []) in
  r.1 = Raise (mk_exn OtherException "ffmpeg error") ∧
  closed r.2 = [0%nat] ∧
  open_handles r.2 = [1%nat].
Proof. vm_compute. done. Qed.


(** After a failure the downloads that had finished stay open as well. *)
Example downloads_after_failure_stay_open :
  let r := miner_utils.search_and_embed_videos Demo.MAX_VIDEO_LENGTH ∅
             (Demo.download_fails Demo.id_b Demo.blocked
                (Demo.entry_of <$> [Demo.id_b; Demo.id_a; Demo.id_c]) Demo.ninety)
             Demo.vec [] "q" 2 Demo.imagebind empty_world in
  returned r = [] ∧ open_handles r.2 = [1; 2]%nat.
Proof. vm_compute. done. Qed.

(** * Further properties of the search stage *)

Lemma mapM_outcome_Forall2 {A B} (f : A → outcome B) (l : list A) (k : list B) :
  mapM f l = Ok k → Forall2 (λ x y, f x = Ok y) l k.
Proof.
  revert k. induction l as [|x l IH]; intros k; simpl.
  - intros [= <-]. constructor.
  - destruct (f x) as [y|e] eqn:Ex; simpl; [|done].
    destruct (mapM f l) as [k'|e]; simpl; [|done].
    intros [= <-]. constructor; [done|by apply IH].
Qed.

Lemma mapM_outcome_raises {A B} (f : A → outcome B) (l : list A) (x : A) :
  x ∈ l → is_ok (f x) = false → is_ok (mapM f l) = false.
Proof.
  induction l as [|y l IH]; intros Hin Hx; [by apply elem_of_nil in Hin|].
  simpl. apply elem_of_cons in Hin as [->|Hin].
  - by destruct (f y).
  - destruct (f y); simpl; [|done].
    specialize (IH Hin Hx). by destruct (mapM f l).
Qed.

Section search_more.

Variable existing_ids : gset string.
Variable P : provider.

Local Abbreviation search := (video_utils.search existing_ids P).
Local Abbreviation search_videos := (video_utils.search_videos existing_ids P).

Local Abbreviation answered := (answered P).

Lemma search_cases attempt query :
  (∃ e, video_utils.search_body existing_ids P attempt query = Raise e ∧
        search attempt query = Some []) ∨
  (answered attempt query [] ∧ search attempt query = None) ∨
  (∃ entries videos,
     entries ≠ [] ∧
     answered attempt query entries ∧
     Forall2 (λ e v, video_utils.make_result e = Ok v) entries videos ∧
     search attempt query
     = Some (filter (λ video, video_id video ∉ existing_ids) videos)).
Proof.
  unfold video_utils.search, video_utils.search_body, answered.
  destruct (augment P attempt query) as [aq|e] eqn:Ea; simpl; [|left; eauto].
  destruct (extract_info P attempt _) as [res|e] eqn:Ee; simpl; [|left; eauto].
  destruct (default [] res) as [|e es] eqn:Ed.
  - right; left. split; [|done]. by exists aq, res.
  - cbv beta iota.
    destruct (mapM video_utils.make_result (e :: es)) as [videos|ex] eqn:Em; simpl.
    + right; right. exists (e :: es), videos. split_and!; [done| |by apply mapM_outcome_Forall2|done].
      by exists aq, res.
    + left. eauto.
Qed.

(** An attempt that raises, in the rewriting of the query or in the
    provider, counts as an empty batch. *)
Lemma search_of_failed_attempt attempt query :
  is_ok (augment P attempt query
         ≫= λ augment_query, extract_info P attempt ("ytsearch99:" +:+ augment_query))
  = false →
  search attempt query = Some [].
Proof.
  unfold video_utils.search, video_utils.search_body.
  destruct (augment P attempt query) as [aq|e]; simpl; [|done].
  by destruct (extract_info P attempt _) as [res|e].
Qed.

(** X1: the stage never returns more than [max_results] candidates, whatever the
    caller seeded it with. *)
Theorem search_videos_at_most_max_results query max_results num_videos filtered_videos :
  0 ≤ max_results →
  Z.of_nat (length (search_videos query max_results num_videos filtered_videos))
  ≤ max_results.
Proof.
  intros Hmax. unfold video_utils.search_videos. cbv zeta.
  destruct (_ >=? _); by apply slice_to_length_le.
Qed.

(** X2: when every attempt raises, the stage raises nothing and gives back what
    it was seeded with, cut to [max_results]. *)
Theorem search_videos_all_attempts_fail query max_results num_videos filtered_videos :
  (∀ attempt, (attempt < 3)%nat →
     is_ok (augment P attempt query
            ≫= λ augment_query,
                 extract_info P attempt ("ytsearch99:" +:+ augment_query)) = false) →
  search_videos query max_results num_videos filtered_videos
  = Py.slice_to (default [] filtered_videos) max_results.
Proof.
  intros Hfail. unfold video_utils.search_videos. cbv zeta.
  destruct (_ >=? _); [done|].
  f_equal. simpl.
  by rewrite !search_of_failed_attempt by (apply Hfail; lia).
Qed.

(** X3: one entry without an identifier or a title costs the attempt its whole
    batch: the [KeyError] is caught with the rest and the attempt returns
    an empty list. *)
Theorem search_batch_voided_by_incomplete_entry attempt query entries e :
  answered attempt query entries →
  e ∈ entries →
  e_id e = None ∨ e_title e = None →
  search attempt query = Some [].
Proof.
  intros (aq & res & Ha & He & Hd) Hin Hmiss.
  unfold video_utils.search, video_utils.search_body.
  rewrite Ha. simpl. rewrite He. simpl. rewrite Hd.
  destruct entries as [|e0 es]; [by apply elem_of_nil in Hin|]. cbv beta iota.
  assert (Hr : is_ok (mapM video_utils.make_result (e0 :: es)) = false).
  { apply (mapM_outcome_raises _ _ e); [done|].
    unfold video_utils.make_result.
    destruct Hmiss as [-> | ->]; [done|]. by destruct (e_id e). }
  by destruct (mapM video_utils.make_result (e0 :: es)).
Qed.

(** X4: every candidate the stage returns was built from an entry that one of
    the three attempts received, and carries that entry's identifier. *)
Theorem search_videos_provenance query max_results num_videos :
  Forall
    (λ video, ∃ attempt entries e,
        (attempt < 3)%nat ∧
        answered attempt query entries ∧
        e ∈ entries ∧
        video_utils.make_result e = Ok video ∧
        e_id e = Some (video_id video) ∧
        e_title e = Some (title video))
    (search_videos query max_results num_videos None).
Proof.
  eapply Forall_of_prefix; [|apply search_videos_prefix].
  apply Forall_concat, Forall_fmap, list.Forall_forall.
  intros attempt Hin. apply elem_of_seq in Hin as [_ Hlt]. simpl in Hlt.
  unfold compose.
  destruct (search_cases attempt query)
    as [(e & _ & ->)|[(_ & ->)|(entries & videos & _ & Hans & Hall & ->)]];
    [done|done|].
  simpl. apply list.Forall_forall. intros v Hv.
  apply list_elem_of_filter in Hv as [_ Hv].
  apply Forall2_sources in Hall. rewrite list.Forall_forall in Hall.
  destruct (Hall v Hv) as (e & He & Hm).
  exists attempt, entries, e. split_and!; try done.
  - unfold video_utils.make_result in Hm.
    destruct (e_id e), (e_title e); by (discriminate || injection Hm as <-).
  - unfold video_utils.make_result in Hm.
    destruct (e_id e), (e_title e); by (discriminate || injection Hm as <-).
Qed.

(** X5: the attempts after the first are not looked at once the first has
    brought the list to [num_videos]: the result is the seed and the first
    batch, cut to [max_results]. *)
Theorem search_videos_stops_at_num_videos query max_results num_videos
    filtered_videos v vs :
  Z.of_nat (length (default [] filtered_videos)) < max_results →
  search 0 query = Some (v :: vs) →
  num_videos ≤ Z.of_nat (length (default [] filtered_videos ++ v :: vs)) →
  search_videos query max_results num_videos filtered_videos
  = Py.slice_to (default [] filtered_videos ++ v :: vs) max_results.
Proof.
  intros Hseed H0 Hnum. unfold video_utils.search_videos. cbv zeta.
  destruct (_ >=? _) eqn:E.
  { rewrite Z.geb_leb in E; apply Z.leb_le in E. lia. }
  f_equal. simpl. rewrite H0.
  destruct (Z.of_nat (length (default [] filtered_videos ++ v :: vs)) >=? num_videos)
    eqn:E2; [done|].
  rewrite Z.geb_leb in E2. apply Z.leb_gt in E2. lia.
Qed.

End search_more.

(** * Further properties of the probe *)

(** X6: the duration is that of the first video stream, cut to whole seconds:
    for a duration that is not negative the result is its integer part. *)
Theorem get_video_duration_truncates (P : provider) (filename : handle)
    (metadata : list stream) (i : nat) (video_stream : stream) (d : Q) :
  ffmpeg_probe P filename = Ok metadata →
  list_find (λ s, codec_type s = "video") metadata = Some (i, video_stream) →
  duration video_stream = Some d →
  0 ≤ Qnum d →
  ∃ len,
    video_utils.get_video_duration P filename = Ok len ∧
    0 ≤ len ∧
    len * Z.pos (Qden d) ≤ Qnum d < (len + 1) * Z.pos (Qden d).
Proof.
  intros Hp Hf Hd Hpos.
  exists (Py.int_of_float d).
  unfold video_utils.get_video_duration. rewrite Hp. simpl. rewrite Hf, Hd.
  split; [done|].
  unfold Py.int_of_float.
  rewrite Z.quot_div_nonneg by lia.
  pose proof (Z.div_mod (Qnum d) (Z.pos (Qden d)) ltac:(lia)) as Hdm.
  pose proof (Z.mod_pos_bound (Qnum d) (Z.pos (Qden d)) ltac:(lia)) as Hb.
  split; [apply Z.div_pos; lia|]. nia.
Qed.

(** X7: a file without a video stream (audio only, or no stream at all) makes
    the probe end in a [TypeError], whatever else ffprobe reported. *)
Theorem get_video_duration_without_video (P : provider) (filename : handle)
    (metadata : list stream) :
  ffmpeg_probe P filename = Ok metadata →
  Forall (λ s, codec_type s ≠ "video") metadata →
  ∃ message,
    video_utils.get_video_duration P filename = Raise (mk_exn TypeError message).
Proof.
  intros Hp Hall.
  unfold video_utils.get_video_duration. rewrite Hp. simpl.
  destruct (list_find _ metadata) as [[i s]|] eqn:Hf; [|eauto].
  apply list_find_Some in Hf as (Hin & Hv & _).
  apply list_elem_of_lookup_2 in Hin.
  rewrite list.Forall_forall in Hall. by destruct (Hall s Hin).
Qed.

(** * Further properties of the temporary files *)

Lemma filter_ext_elem_of {A} (P1 P2 : A → Prop) `{!∀ x, Decision (P1 x)}
    `{!∀ x, Decision (P2 x)} (l : list A) :
  (∀ x, x ∈ l → P1 x ↔ P2 x) → filter P1 l = filter P2 l.
Proof.
  induction l as [|x l IH]; intros Hext; [done|].
  rewrite !filter_cons.
  rewrite IH by (intros y Hy; apply Hext; by right).
  destruct (decide (P1 x)) as [H1|H1], (decide (P2 x)) as [H2|H2]; try done.
  - destruct H2. apply Hext; [by left|done].
  - destruct H1. apply Hext; [by left|done].
Qed.



Lemma close_count_not_closed w h : h ∉ closed w → close_count w h = 0%nat.
Proof.
  unfold close_count. induction (closed w) as [|x l IH]; intros Hn; [done|].
  rewrite filter_cons_False by (intros ->; apply Hn; by left).
  apply IH. intros Hin. apply Hn. by right.
Qed.

Lemma close_count_app w l h :
  close_count (mk_world (next_handle w) (opened w) (closed w ++ l)) h
  = (close_count w h + length (filter (λ x, x = h) l))%nat.
Proof. unfold close_count. simpl. by rewrite filter_app, length_app. Qed.

Lemma wf_world_fresh w :
  wf_world w → (next_handle w ∉ opened w) ∧ (next_handle w ∉ closed w).
Proof.
  intros [Ho Hc]. rewrite !list.Forall_forall in *.
  split; intros Hin; [apply Ho in Hin|apply Hc in Hin]; lia.
Qed.

Lemma wf_world_created w : wf_world w → wf_world (created w).
Proof.
  intros [Ho Hc]. split; simpl.
  - apply Forall_app; split; [|repeat constructor; lia].
    eapply Forall_impl; [apply Ho|]. simpl. lia.
  - eapply Forall_impl; [apply Hc|]. simpl. lia.
Qed.

Lemma wf_world_created_and_closed w : wf_world w → wf_world (created_and_closed w).
Proof.
  intros [Ho Hc]. split; simpl.
  - apply Forall_app; split; [|repeat constructor; lia].
    eapply Forall_impl; [apply Ho|]. simpl. lia.
  - apply Forall_app; split; [|repeat constructor; lia].
    eapply Forall_impl; [apply Hc|]. simpl. lia.
Qed.

Lemma open_handles_created w :
  wf_world w → open_handles (created w) = open_handles w ++ [next_handle w].
Proof.
  intros Hwf. destruct (wf_world_fresh w Hwf) as [_ Hc].
  unfold open_handles, created. simpl.
  rewrite filter_app. f_equal. by rewrite filter_cons_True.
Qed.

Lemma open_handles_created_and_closed w :
  wf_world w → open_handles (created_and_closed w) = open_handles w.
Proof.
  intros Hwf. destruct (wf_world_fresh w Hwf) as [Ho _].
  unfold open_handles, created_and_closed. simpl.
  rewrite filter_app, filter_cons_False, filter_nil, app_nil_r
    by (intros Hn; apply Hn, elem_of_app; right; by left).
  apply filter_ext_elem_of. intros h Hh.
  rewrite elem_of_app, list_elem_of_singleton.
  split; [tauto|]. intros Hn [?| ->]; done.
Qed.

Lemma download_video_store (P : provider) (video_id : string)
    (start end_ : option Z) (proxy : option string) (w : world) :
  wf_world w →
  let r := video_utils.download_video P video_id start end_ proxy w in
  wf_world r.2 ∧
  match r.1 with
  | Ok (Some temp_fileobj) =>
      temp_fileobj = next_handle w ∧
      (temp_fileobj ∉ opened w) ∧
      open_handles r.2 = open_handles w ++ [temp_fileobj]
  | Ok None | Raise _ => open_handles r.2 = open_handles w
  end.
Proof.
  intros Hwf r. subst r.
  destruct (video_utils.is_valid_id video_id) eqn:Hid.
  - rewrite download_video_cases by done.
    pose proof (wf_world_created w Hwf).
    pose proof (wf_world_created_and_closed w Hwf).
    pose proof (open_handles_created w Hwf).
    pose proof (open_handles_created_and_closed w Hwf).
    destruct (wf_world_fresh w Hwf) as [Hfresh _].
    destruct (ydl_download P _ _ _ _) as [sz|e].
    + by destruct (sz =? 0).
    + destruct (video_utils.says_blocked _); [done|].
      by destruct (video_utils.says_unavailable _).
  - by rewrite download_video_invalid_id.
Qed.

(** X8: the download stage leaks nothing: whatever the transfer did, the store
    stays well formed; a file is left open only when it is returned, and
    then it is the one new handle. *)
Theorem download_video_releases (P : provider) (video_id : string)
    (start end_ : option Z) (proxy : option string) (w : world) :
  wf_world w →
  let r := video_utils.download_video P video_id start end_ proxy w in
  wf_world r.2 ∧
  match r.1 with
  | Ok (Some temp_fileobj) =>
      temp_fileobj = next_handle w ∧
      (temp_fileobj ∉ opened w) ∧
      open_handles r.2 = open_handles w ++ [temp_fileobj]
  | Ok None | Raise _ => open_handles r.2 = open_handles w
  end.
Proof. apply download_video_store. Qed.

(** [clip_video] creates one temporary file and closes none, for every
    input: the file is returned when ffmpeg succeeds, and stays open,
    unreturned, when ffmpeg raises. *)
Theorem clip_video_creates_one_closes_none (P : provider) (video_path : handle)
    (start end_ : Z) (w : world) :
  let r := video_utils.clip_video P video_path start end_ w in
  r.2 = created w ∧
  closed r.2 = closed w ∧
  (r.1 = Ok (next_handle w) ∨
   ∃ e, r.1 = Raise e ∧
        ffmpeg_run P video_path (seconds_to_str start) (seconds_to_str end_)
          (next_handle w) = Raise e).
Proof.
  intros r. subst r. rewrite clip_video_cases.
  destruct (ffmpeg_run P _ _ _ _) as [[]|e] eqn:E; simpl; split_and!; eauto.
Qed.

(** X9: [copy_audio] creates one temporary file and closes none: the file is
    returned when ffmpeg succeeds, and stays open, unreturned, when ffmpeg
    raises. *)
Theorem copy_audio_creates_one_closes_none
    (ffmpeg_copy_audio : handle → handle → outcome unit)
    (video_path : handle) (w : world) :
  wf_world w →
  let r := video_utils_rest.copy_audio ffmpeg_copy_audio video_path w in
  r.2 = created w ∧
  open_handles r.2 = open_handles w ++ [next_handle w] ∧
  (r.1 = Ok (next_handle w) ∨
   ∃ e, r.1 = Raise e ∧ ffmpeg_copy_audio video_path (next_handle w) = Raise e).
Proof.
  intros Hwf r. subst r.
  unfold video_utils_rest.copy_audio. unfold_M. simpl.
  pose proof (open_handles_created w Hwf) as Ho. unfold created in Ho.
  destruct (ffmpeg_copy_audio _ _) as [[]|e] eqn:E; simpl; split_and!; eauto.
Qed.

Section release_facts.

Variable MAX_VIDEO_LENGTH : Z.
Variable P : provider.
Variable vec : Type.

Local Abbreviation process_video := (miner_utils.process_video MAX_VIDEO_LENGTH P vec).

Local Abbreviation trim_succeeds := (trim_succeeds MAX_VIDEO_LENGTH P).

Lemma process_video_store result download_path imagebind query w :
  (process_video result download_path imagebind query w).2
  = miner_utils.processed download_path (trim_succeeds result download_path w) w.
Proof.
  rewrite process_video_cases. cbv zeta. unfold trim_succeeds.
  by destruct (ffmpeg_run P _ _ _ _).
Qed.

Lemma close_count_processed download_path clip_made w h :
  close_count (miner_utils.processed download_path clip_made w) h
  = (close_count w h
     + (if decide (download_path = h) then 1 else 0)
     + (if clip_made then if decide (next_handle w = h) then 1 else 0 else 0))%nat.
Proof.
  unfold close_count, miner_utils.processed. simpl.
  rewrite filter_app, length_app, filter_cons.
  destruct clip_made; simpl.
  - rewrite filter_cons, filter_nil. repeat case_decide; simpl; lia.
  - rewrite filter_nil. repeat case_decide; simpl; lia.
Qed.

(** X10: [process_video] closes the download once whatever happens, and closes
    the clip once whenever the trim produced one, a failing embedding
    included; it touches no other handle. *)
Theorem process_video_releases result download_path imagebind query w :
  wf_world w →
  (download_path < next_handle w)%nat →
  let r := process_video result download_path imagebind query w in
  let clip_path := next_handle w in
  wf_world r.2 ∧
  opened r.2 = opened w ++ [clip_path] ∧
  close_count r.2 download_path = S (close_count w download_path) ∧
  close_count r.2 clip_path
  = (if trim_succeeds result download_path w then 1 else 0)%nat ∧
  (∀ h, h ≠ download_path → h ≠ clip_path → close_count r.2 h = close_count w h).
Proof.
  intros Hwf Hlt r clip_path. subst r clip_path.
  rewrite process_video_store.
  destruct (wf_world_fresh w Hwf) as [_ Hfresh].
  assert (Hzero : close_count w (next_handle w) = 0%nat)
    by (by apply close_count_not_closed).
  destruct Hwf as [Ho Hc].
  split_and!.
  - unfold miner_utils.processed. split; simpl.
    + apply Forall_app; split; [|repeat constructor; lia].
      eapply Forall_impl; [apply Ho|]. simpl. lia.
    + apply Forall_app; split.
      * eapply Forall_impl; [apply Hc|]. simpl. lia.
      * destruct (trim_succeeds _ _ _); repeat constructor; lia.
  - done.
  - rewrite close_count_processed.
    destruct (trim_succeeds _ _ _); repeat case_decide; lia.
  - rewrite close_count_processed, Hzero.
    destruct (trim_succeeds _ _ _); repeat case_decide; lia.
  - intros h Hd Hcl. rewrite close_count_processed.
    destruct (trim_succeeds _ _ _); repeat case_decide; lia.
Qed.

(** X11: a finished download carries the candidate unchanged but for its
    length, which is the one measured on the file; the file is the one new
    handle and is left open for [process_video]. *)
Theorem miner_download_video_returns result w result' download_path w' :
  wf_world w →
  miner_utils.download_video P result w = (Ok (Some (result', download_path)), w') →
  download_path = next_handle w ∧
  w' = created w ∧
  open_handles w' = open_handles w ++ [download_path] ∧
  video_id result' = video_id result ∧
  title result' = title result ∧
  description result' = description result ∧
  views result' = views result ∧
  video_utils.get_video_duration P download_path = Ok (yt_length result').
Proof.
  intros Hwf. rewrite miner_download_video_cases.
  pose proof (download_video_store P (video_id result) (Some 0)
                (Some (Py.min (yt_length result) FIVE_MINUTES)) None w Hwf) as Hrel.
  cbv zeta in Hrel.
  destruct (video_utils.download_video _ _ _ _ _ _) as [[[h|]|e] w1] eqn:Ed; try done.
  simpl in Hrel. destruct Hrel as (_ & -> & _ & Hopen).
  destruct (video_utils.get_video_duration P (next_handle w)) as [len|e] eqn:Eg; [|done].
  intros [= <- <- <-]. simpl.
  assert (w1 = created w) as ->.
  { destruct (video_utils.is_valid_id (video_id result)) eqn:Hid.
    - rewrite download_video_cases in Ed by done.
      destruct (ydl_download P _ _ _ _) as [sz|e'].
      + destruct (sz =? 0); by injection Ed.
      + destruct (video_utils.says_blocked _); [done|].
        by destruct (video_utils.says_unavailable _).
    - by rewrite download_video_invalid_id in Ed. }
  by split_and!.
Qed.

(** X12: when the transfer succeeds and the probe then raises, the task raises the
    probe's error and the downloaded file is left open. *)
Theorem miner_download_video_probe_failure result w st_size e :
  wf_world w →
  video_utils.is_valid_id (video_id result) = true →
  ydl_download P (video_utils.video_url (video_id result)) (next_handle w)
    (Some (0, Py.min (yt_length result) FIVE_MINUTES)) video_utils.default_proxy
  = Ok st_size →
  st_size ≠ 0 →
  video_utils.get_video_duration P (next_handle w) = Raise e →
  miner_utils.download_video P result w = (Raise e, created w) ∧
  open_handles (created w) = open_handles w ++ [next_handle w] ∧
  close_count (created w) (next_handle w) = 0%nat.
Proof.
  intros Hwf Hid Hdl Hsz Hprobe.
  rewrite miner_download_video_cases, download_video_cases by done.
  simpl. rewrite Hdl.
  destruct (Z.eqb_spec st_size 0) as [?|_]; [done|].
  rewrite Hprobe. split_and!; [done|by apply open_handles_created|].
  destruct (wf_world_fresh w Hwf) as [_ Hfresh].
  by apply close_count_not_closed.
Qed.

End release_facts.

(** * Further properties of the pipeline *)

Lemma Forall2_compose {A B C} (R1 : A → B → Prop) (R2 : B → C → Prop)
    (l : list A) (k : list B) (m : list C) :
  Forall2 R1 l k → Forall2 R2 k m → Forall2 (λ x z, ∃ y, R1 x y ∧ R2 y z) l m.
Proof.
  intros H. revert m. induction H as [|x y l k HR _ IH]; intros m Hm.
  - inversion Hm. constructor.
  - inversion Hm as [|? z ? m' HR2 Hm']; subst. constructor; eauto.
Qed.

Lemma Forall2_fmap_eq {A B C} (f : A → C) (g : B → C) (l : list A) (k : list B) :
  Forall2 (λ x y, f x = g y) l k → f <$> l = g <$> k.
Proof. induction 1 as [|x y l k Hxy _ IH]; [done|]. rewrite !fmap_cons. by rewrite Hxy, IH. Qed.

Section pipeline_more.

Variable MAX_VIDEO_LENGTH : Z.
Variable existing_ids : gset string.
Variable P : provider.
Variable vec : Type.

Local Abbreviation process_video := (miner_utils.process_video MAX_VIDEO_LENGTH P vec).
Local Abbreviation process_completed :=
  (miner_utils.process_completed MAX_VIDEO_LENGTH P vec).
Local Abbreviation download_and_process :=
  (miner_utils.download_and_process MAX_VIDEO_LENGTH P vec).
Local Abbreviation search_and_embed_videos :=
  (miner_utils.search_and_embed_videos MAX_VIDEO_LENGTH existing_ids P vec).
Local Abbreviation yields := (miner_utils.yields MAX_VIDEO_LENGTH P vec).
Local Abbreviation candidates query num_videos :=
  (video_utils.search_videos existing_ids P query
     (Py.int_times_1_5 num_videos) num_videos None).



Lemma returned_ids_prefix sched query num_videos imagebind w :
  vm_video_id <$> returned (search_and_embed_videos sched query num_videos imagebind w)
  `prefix_of` video_id <$> as_completed sched (candidates query num_videos).
Proof.
  rewrite search_and_embed_videos_unfold.
  destruct (download_and_process_unfold MAX_VIDEO_LENGTH P vec sched
              (candidates query num_videos) query num_videos imagebind w)
    as (tasks & w1 & _ & Hdl & ->).
  destruct (process_completed _ _ _ _ _) as [oc [video_metas w2]] eqn:E.
  unfold returned. simpl.
  apply process_completed_trace in E as (consumed & new & -> & Hy & [rest ->] & _).
  simpl.
  apply Forall2_app_inv_r in Hdl as (order1 & order2 & Hdl1 & _ & ->).
  rewrite fmap_app. apply prefix_app_r.
  assert (Heq : video_id <$> order1 = vm_video_id <$> new); [|by rewrite Heq].
  apply Forall2_fmap_eq.
  eapply Forall2_impl; [apply (Forall2_compose _ _ _ _ _ Hdl1 Hy)|].
  intros c m (task & (wa & wb & Hd) & (result & h & wc & wd & -> & Hp)).
  apply miner_download_video_measured in Hd as (len & _ & ->).
  apply process_video_populated in Hp as (? & ? & _ & _ & _ & _ & -> & _).
  done.
Qed.

(** X14: the records come in completion order, one for each of the first
    candidates to complete: their identifiers are a prefix of the
    identifiers of the candidates in the order in which they completed. *)
Theorem records_follow_completion_order sched query num_videos imagebind w :
  vm_video_id <$> returned (search_and_embed_videos sched query num_videos imagebind w)
  `prefix_of` video_id <$> as_completed sched (candidates query num_videos).
Proof. apply returned_ids_prefix. Qed.






End pipeline_more.

(** * Properties of the description *)

Lemma string_length_app (s1 s2 : string) :
  String.length (s1 +:+ s2) = (String.length s1 + String.length s2)%nat.
Proof.
  induction s1 as [|c s1 IH]; [done|].
  unfold String.app; fold String.app. simpl. by rewrite IH.
Qed.

(** X17: the description always starts with the title, and is the title alone
    exactly when the candidate has no description or an empty one. *)
Theorem get_description_title (yt : YoutubeResult) (video_path : handle) :
  (∃ rest, miner_utils.get_description yt video_path = title yt +:+ rest) ∧
  (miner_utils.get_description yt video_path = title yt ↔
   description yt = None ∨ description yt = Some EmptyString).
Proof.
  unfold miner_utils.get_description.
  destruct (description yt) as [d|].
  - destruct (String.eqb_spec d EmptyString) as [->|Hd].
    + split; [exists EmptyString; by rewrite string_app_empty_r|]. split; auto.
    + split; [eauto|]. split.
      * intros Heq. apply (f_equal String.length) in Heq.
        rewrite !string_length_app in Heq. simpl in Heq. lia.
      * intros [?|[= ->]]; done.
  - split; [exists EmptyString; by rewrite string_app_empty_r|]. split; auto.
Qed.

(** * Properties of the miner's background thread *)

Section lifecycle.

Import simulate_miner.

Lemma call_method_consistent m s :
  consistent s →
  (call_method m s).1 = Ok tt ∧ consistent (call_method m s).2.
Proof.
  destruct s as [self ts]. intros [Hs Hr].
  assert (Hstart : (run_in_background_thread (self, ts)).1 = Ok tt ∧
                   consistent (run_in_background_thread (self, ts)).2).
  { unfold run_in_background_thread.
    destruct (is_running self) eqn:Er; cbn -[seq].
    - rewrite Er. done.
    - split; [done|]. split.
      + by rewrite seq_S, Hs.
      + exists (next_thread ts). by rewrite Hr, Hs. }
  assert (Hstop : (stop_run_thread (self, ts)).1 = Ok tt ∧
                  consistent (stop_run_thread (self, ts)).2).
  { unfold stop_run_thread.
    destruct (is_running self) eqn:Er; cbn -[seq].
    - destruct Hr as (t & -> & Hn & Hj). cbn -[seq]. split; [done|]. split; [done|].
      by rewrite Hs, Hn, seq_S, Hj.
    - rewrite Er. done. }
  by destruct m.
Qed.

(** X18: whatever the calls made on a fresh object, none raises ([join] is never
    asked of a thread that does not exist), and the object stays
    consistent: no thread is started while another runs, and every thread
    started was joined, once, unless it is the one running. *)
Theorem lifecycle_never_raises (ms : list method) :
  let r := call_methods ms (init, no_threads) in
  r.1 = Ok tt ∧ consistent r.2.
Proof.
  cbv zeta.
  assert (H0 : consistent (init, no_threads)) by done.
  revert H0. generalize (init, no_threads).
  induction ms as [|m ms IH]; intros s Hs; [done|].
  simpl. unfold mbind, M_bind.
  destruct (call_method_consistent m s Hs) as [Hok Hc].
  destruct (call_method m s) as [[[]|e] s']; [|done].
  by apply IH.
Qed.

(** X19: starting twice is starting once, and stopping twice is stopping once. *)
Theorem start_and_stop_are_idempotent (s : state) :
  (run_in_background_thread ;; run_in_background_thread) s = run_in_background_thread s ∧
  (stop_run_thread ;; stop_run_thread) s = stop_run_thread s.
Proof.
  destruct s as [self ts]. unfold mbind, M_bind.
  unfold run_in_background_thread, stop_run_thread.
  destruct (is_running self) eqn:Er; simpl; rewrite ?Er; [|done].
  by destruct (thread self).
Qed.


(** X21: the loop of [run] adds one to the step count for every sleep after which
    the exit flag is still unset, and leaves at the first read that sees the
    flag set, be it the test of the loop or the test after the sleep. *)
Theorem run_counts_full_sleeps (k : nat) (after_sleep : bool) (rest : list bool)
    (step0 : Z) :
  run (replicate (2 * k) false
       ++ (if after_sleep then [false; true] else [true]) ++ rest) step0
  = Some (step0 + Z.of_nat k).
Proof.
  revert step0. induction k as [|k IH]; intros step0.
  - destruct after_sleep; simpl; f_equal; lia.
  - replace (2 * S k)%nat with (S (S (2 * k))) by lia. simpl.
    rewrite IH. f_equal. lia.
Qed.

End lifecycle.

(** * Properties of the validation route *)

Section validation.

Import validator_api.

Variable keypair_verify : string → string → string → outcome bool.
Variable Videos : Type.
Variable score_and_upload_videos : Videos → outcome Q.

Local Abbreviation api_validate :=
  (api_validate keypair_verify Videos score_and_upload_videos).
Local Abbreviation authorized := (authorized keypair_verify).

Lemma index_Some x l uid :
  index x l = Some uid ↔
  l !! uid = Some x ∧ ∀ j, (j < uid)%nat → l !! j ≠ Some x.
Proof.
  unfold index. split.
  - destruct (list_find _ l) as [[i y]|] eqn:Hf; [|done].
    intros [= <-]. apply list_find_Some in Hf as (Hi & -> & Hbefore).
    split; [done|]. intros j Hj Hlook. by apply (Hbefore j x).
  - intros [Hi Hbefore].
    assert (Hf : list_find (λ y, y = x) l = Some (uid, x)).
    { apply list_find_Some. split_and!; [done|done|].
      intros j y Hy Hj ->. by apply (Hbefore j). }
    by rewrite Hf.
Qed.

Lemma index_None x l : index x l = None ↔ x ∉ l.
Proof.
  unfold index. destruct (list_find _ l) as [[i y]|] eqn:Hf.
  - apply list_find_Some in Hf as (Hi & -> & _).
    split; [done|]. intros Hn. destruct Hn. by eapply list_elem_of_lookup_2.
  - split; [|done]. intros _ Hin.
    apply list_find_None in Hf. rewrite list.Forall_forall in Hf. by apply (Hf x).
Qed.

Lemma api_validate_cases m credentials videos scored :
  api_validate m credentials videos scored =
  match keypair_verify (username credentials) (username credentials)
          (password credentials) with
  | Ok true => validate Videos score_and_upload_videos m videos (username credentials) scored
  | Ok false => (HTTPException HTTP_401_UNAUTHORIZED "Signature mismatch", scored)
  | Raise e => (Uncaught e, scored)
  end.
Proof.
  unfold validator_api.api_validate, get_hotkey.
  by destruct (keypair_verify _ _ _) as [[]|].
Qed.

(** X22: a score is returned only to an authorized caller, and it is the score
    of the submission that was sent. *)
Theorem api_validate_sound m credentials videos scored computed_score scored' :
  api_validate m credentials videos scored = (Returns computed_score, scored') →
  authorized m credentials ∧
  score_and_upload_videos videos = Ok computed_score ∧
  scored' = scored ++ [videos].
Proof.
  rewrite api_validate_cases. unfold validator_api.authorized.
  destruct (keypair_verify _ _ _) as [[]|]; [|done|done].
  unfold validate.
  destruct (index _ _) as [uid|] eqn:Hi; [|done].
  apply index_Some in Hi as [Hu Hfirst].
  destruct (validator_permit m !! uid) as [[]|] eqn:Hp; [|done|done].
  destruct (score_and_upload_videos videos) as [sc|]; [|done].
  intros [= <- <-]. split_and!; eauto.
Qed.

(** X23: an authorized caller is never refused: the route gives what the scoring
    service gave, its score or its exception. *)
Theorem api_validate_complete m credentials videos scored :
  authorized m credentials →
  api_validate m credentials videos scored =
  (match score_and_upload_videos videos with
   | Ok computed_score => Returns computed_score
   | Raise e => Uncaught e
   end,
   scored ++ [videos]).
Proof.
  intros (Hv & uid & Hu & Hfirst & Hp).
  rewrite api_validate_cases, Hv. unfold validate.
  assert (Hi : index (username credentials) (hotkeys m) = Some uid)
    by (by apply index_Some).
  rewrite Hi, Hp. by destruct (score_and_upload_videos videos).
Qed.

(** X24: the scoring service is handed a submission only for an authorized
    caller: every refusal leaves it untouched. *)
Theorem api_validate_scores_only_authorized m credentials videos scored :
  (api_validate m credentials videos scored).2 = scored ∨
  (authorized m credentials ∧
   (api_validate m credentials videos scored).2 = scored ++ [videos]).
Proof.
  rewrite api_validate_cases. unfold validator_api.authorized.
  destruct (keypair_verify _ _ _) as [[]|]; [|by left|by left].
  unfold validate.
  destruct (index _ _) as [uid|] eqn:Hi; [|by left].
  apply index_Some in Hi as [Hu Hfirst].
  destruct (validator_permit m !! uid) as [[]|] eqn:Hp; [|by left|by left].
  right. split; [eauto 6|]. by destruct (score_and_upload_videos videos).
Qed.

(** X25: the refusals: a 401 is given only for a signature that does not
    verify, a 403 only for a verified key that is not registered or whose
    first position has no permit; no refusal reaches the scoring service. *)
Theorem api_validate_refusals m credentials videos scored status_code detail scored' :
  api_validate m credentials videos scored = (HTTPException status_code detail, scored') →
  scored' = scored ∧
  (status_code = 401 ∧
   keypair_verify (username credentials) (username credentials) (password credentials)
   = Ok false
   ∨
   status_code = 403 ∧
   keypair_verify (username credentials) (username credentials) (password credentials)
   = Ok true ∧
   (username credentials ∉ hotkeys m ∨
    ∃ uid, index (username credentials) (hotkeys m) = Some uid ∧
           validator_permit m !! uid = Some false)).
Proof.
  rewrite api_validate_cases.
  destruct (keypair_verify _ _ _) as [[]|]; [| |done].
  - unfold validate.
    destruct (index _ _) as [uid|] eqn:Hi.
    + destruct (validator_permit m !! uid) as [[]|] eqn:Hp.
      * by destruct (score_and_upload_videos videos).
      * intros [= <- <- <-]. split; [done|]. right. split_and!; eauto.
      * done.
    + intros [= <- <- <-]. split; [done|]. right. split_and!; [done|done|].
      left. by apply index_None.
  - intros [= <- <- <-]. split; [done|]. by left.
Qed.

End validation.

(** * The files left open by the pipeline *)



Section leftover_facts.

Variable MAX_VIDEO_LENGTH : Z.
Variable existing_ids : gset string.
Variable P : provider.
Variable vec : Type.

Local Abbreviation process_video := (miner_utils.process_video MAX_VIDEO_LENGTH P vec).
Local Abbreviation process_completed :=
  (miner_utils.process_completed MAX_VIDEO_LENGTH P vec).
Local Abbreviation search_and_embed_videos :=
  (miner_utils.search_and_embed_videos MAX_VIDEO_LENGTH existing_ids P vec).
Local Abbreviation candidates query num_videos :=
  (video_utils.search_videos existing_ids P query
     (Py.int_times_1_5 num_videos) num_videos None).






End leftover_facts.

(** * The further properties on concrete services *)

Lemma wf_empty_world : wf_world empty_world.
Proof. by split. Qed.


Lemma search_videos_at_most_max_results_witness :
  Z.of_nat (length (video_utils.search_videos ∅
                      (Demo.ok_provider Demo.twenty Demo.ninety) "q" 12 8 None)) ≤ 12.
Proof.
  apply (search_videos_at_most_max_results ∅
           (Demo.ok_provider Demo.twenty Demo.ninety) "q" 12 8 None). lia.
Defined.

Lemma search_videos_all_attempts_fail_witness :
  video_utils.search_videos ∅ Samples.search_down "q" 12 8 None = Py.slice_to [] 12.
Proof.
  apply (search_videos_all_attempts_fail ∅ Samples.search_down "q" 12 8 None).
  intros attempt _. reflexivity.
Defined.

Lemma search_batch_voided_by_incomplete_entry_witness :
  video_utils.search ∅
    (Demo.per_attempt (λ _, [Demo.entry_of Demo.id_a; Samples.nameless]) Demo.ninety)
    0%nat "q" = Some [].
Proof.
  apply (search_batch_voided_by_incomplete_entry ∅
           (Demo.per_attempt (λ _, [Demo.entry_of Demo.id_a; Samples.nameless]) Demo.ninety)
           0%nat "q" [Demo.entry_of Demo.id_a; Samples.nameless] Samples.nameless).
  - by exists "q", (Some [Demo.entry_of Demo.id_a; Samples.nameless]).
  - set_solver.
  - by left.
Defined.

Lemma search_videos_stops_at_num_videos_witness :
  video_utils.search_videos ∅
    (Demo.per_attempt (λ attempt, [Demo.entry_of (Demo.numbered_id attempt)]) Demo.ninety)
    "q" 4 1 None
  = Py.slice_to
      ([] ++ [mk_YoutubeResult (Demo.numbered_id 0) ("title " +:+ Demo.numbered_id 0)
                None 90 7]) 4.
Proof.
  apply (search_videos_stops_at_num_videos ∅
           (Demo.per_attempt (λ attempt, [Demo.entry_of (Demo.numbered_id attempt)])
              Demo.ninety)
           "q" 4 1 None).
  - simpl. lia.
  - vm_compute. reflexivity.
  - simpl. lia.
Defined.

Lemma get_video_duration_truncates_witness :
  ∃ len,
    video_utils.get_video_duration
      (Demo.ok_provider [] (Qmake 7 2)) 0%nat = Ok len ∧
    0 ≤ len ∧ len * 2 ≤ 7 < (len + 1) * 2.
Proof.
  apply (get_video_duration_truncates (Demo.ok_provider [] (Qmake 7 2)) 0%nat
           (Demo.one_video_stream (Qmake 7 2)) 1%nat
           {| codec_type := "video"; duration := Some (Qmake 7 2) |} (Qmake 7 2));
    [reflexivity|reflexivity|reflexivity|simpl; lia].
Defined.

Lemma get_video_duration_without_video_witness :
  ∃ message,
    video_utils.get_video_duration Samples.audio_only 0%nat
    = Raise (mk_exn TypeError message).
Proof.
  apply (get_video_duration_without_video Samples.audio_only 0%nat
           [ {| codec_type := "audio"; duration := Some Demo.ninety |} ]).
  - reflexivity.
  - by repeat constructor.
Defined.

Lemma download_video_releases_witness :
  let r := video_utils.download_video
             (Demo.download_fails Demo.id_b Demo.blocked [] Demo.ninety)
             Demo.id_b (Some 0) (Some 90) None empty_world in
  wf_world r.2 ∧
  match r.1 with
  | Ok (Some temp_fileobj) =>
      temp_fileobj = next_handle empty_world ∧
      (temp_fileobj ∉ opened empty_world) ∧
      open_handles r.2 = open_handles empty_world ++ [temp_fileobj]
  | Ok None | Raise _ => open_handles r.2 = open_handles empty_world
  end.
Proof.
  apply (download_video_releases
           (Demo.download_fails Demo.id_b Demo.blocked [] Demo.ninety)
           Demo.id_b (Some 0) (Some 90) None empty_world).
  by split.
Defined.

Lemma copy_audio_creates_one_closes_none_witness :
  let r := video_utils_rest.copy_audio Samples.ffmpeg_copy_audio_ok 0%nat
             (mk_world 1 [0%nat] []) in
  r.2 = created (mk_world 1 [0%nat] []) ∧
  open_handles r.2 = open_handles (mk_world 1 [0%nat] []) ++ [1%nat] ∧
  (r.1 = Ok 1%nat ∨
   ∃ e, r.1 = Raise e ∧ Samples.ffmpeg_copy_audio_ok 0%nat 1%nat = Raise e).
Proof.
  apply (copy_audio_creates_one_closes_none Samples.ffmpeg_copy_audio_ok 0%nat
           (mk_world 1 [0%nat] [])).
  split; simpl; repeat constructor.
Defined.

Lemma process_video_releases_witness :
  let w := mk_world 1 [0%nat] [] in
  let r := miner_utils.process_video Demo.MAX_VIDEO_LENGTH
             (Demo.ok_provider [] Demo.ninety) Demo.vec Samples.candidate_a 0%nat
             (Demo.imagebind_rejects "title") "q" w in
  wf_world r.2 ∧
  opened r.2 = opened w ++ [1%nat] ∧
  close_count r.2 0%nat = S (close_count w 0%nat) ∧
  close_count r.2 1%nat
  = (if trim_succeeds Demo.MAX_VIDEO_LENGTH (Demo.ok_provider [] Demo.ninety)
          Samples.candidate_a 0%nat w then 1 else 0)%nat ∧
  (∀ h, h ≠ 0%nat → h ≠ 1%nat → close_count r.2 h = close_count w h).
Proof.
  apply (process_video_releases Demo.MAX_VIDEO_LENGTH (Demo.ok_provider [] Demo.ninety)
           Demo.vec Samples.candidate_a 0%nat (Demo.imagebind_rejects "title") "q"
           (mk_world 1 [0%nat] [])).
  - split; simpl; repeat constructor.
  - simpl. lia.
Defined.

Lemma miner_download_video_returns_witness :
  0%nat = next_handle empty_world ∧
  created empty_world = created empty_world ∧
  open_handles (created empty_world) = open_handles empty_world ++ [0%nat] ∧
  video_id (miner_utils.set_length Samples.candidate_a 90) = video_id Samples.candidate_a ∧
  title (miner_utils.set_length Samples.candidate_a 90) = title Samples.candidate_a ∧
  description (miner_utils.set_length Samples.candidate_a 90)
  = description Samples.candidate_a ∧
  views (miner_utils.set_length Samples.candidate_a 90) = views Samples.candidate_a ∧
  video_utils.get_video_duration (Demo.ok_provider [] Demo.ninety) 0%nat
  = Ok (yt_length (miner_utils.set_length Samples.candidate_a 90)).
Proof.
  apply (miner_download_video_returns (Demo.ok_provider [] Demo.ninety)
           Samples.candidate_a empty_world
           (miner_utils.set_length Samples.candidate_a 90) 0%nat (created empty_world)).
  - by split.
  - reflexivity.
Defined.

Lemma miner_download_video_probe_failure_witness :
  miner_utils.download_video Samples.audio_only Samples.candidate_a empty_world
  = (Raise (mk_exn TypeError "'NoneType' object is not subscriptable"),
     created empty_world) ∧
  open_handles (created empty_world) = open_handles empty_world ++ [0%nat] ∧
  close_count (created empty_world) 0%nat = 0%nat.
Proof.
  apply (miner_download_video_probe_failure Samples.audio_only Samples.candidate_a
           empty_world 1000).
  - by split.
  - reflexivity.
  - reflexivity.
  - lia.
  - reflexivity.
Defined.






Lemma api_validate_sound_witness :
  validator_api.authorized Samples.keypair_verify Samples.metagraph Samples.alice ∧
  Samples.score_and_upload_videos 5%nat = Ok (Qmake 5 10) ∧
  [5%nat] = [] ++ [5%nat].
Proof.
  apply (api_validate_sound Samples.keypair_verify nat Samples.score_and_upload_videos
           Samples.metagraph Samples.alice 5%nat [] (Qmake 5 10) [5%nat]).
  reflexivity.
Defined.

Lemma alice_is_authorized :
  validator_api.authorized Samples.keypair_verify Samples.metagraph Samples.alice.
Proof.
  split; [reflexivity|]. exists 0%nat. split_and!; [done| |done]. intros j Hj. lia.
Qed.

Lemma api_validate_complete_witness :
  validator_api.api_validate Samples.keypair_verify nat Samples.score_and_upload_videos
    Samples.metagraph Samples.alice 5%nat []
  = (match Samples.score_and_upload_videos 5%nat with
     | Ok computed_score => validator_api.Returns computed_score
     | Raise e => validator_api.Uncaught e
     end, [] ++ [5%nat]).
Proof.
  apply (api_validate_complete Samples.keypair_verify nat Samples.score_and_upload_videos
           Samples.metagraph Samples.alice 5%nat []).
  apply alice_is_authorized.
Defined.

Lemma api_validate_refusals_witness :
  [] = ([] : list nat) ∧
  (403 = 401 ∧
   Samples.keypair_verify (validator_api.username Samples.bob)
     (validator_api.username Samples.bob) (validator_api.password Samples.bob)
   = Ok false
   ∨
   403 = 403 ∧
   Samples.keypair_verify (validator_api.username Samples.bob)
     (validator_api.username Samples.bob) (validator_api.password Samples.bob)
   = Ok true ∧
   (validator_api.username Samples.bob ∉ validator_api.hotkeys Samples.metagraph ∨
    ∃ uid, validator_api.index (validator_api.username Samples.bob)
             (validator_api.hotkeys Samples.metagraph) = Some uid ∧
           validator_api.validator_permit Samples.metagraph !! uid = Some false)).
Proof.
  apply (api_validate_refusals Samples.keypair_verify nat Samples.score_and_upload_videos
           Samples.metagraph Samples.bob 5%nat [] 403 "Validator permit required" []).
  reflexivity.
Defined.
